(** * Ambulance booking system: emergency lifecycle, feedback, refunds and
      the nearby-hospital lookup

    A shallow embedding of the Express/Mongoose route handlers of the server
    (routes/emergency.js, routes/hospital.js, routes/payment.js and the
    Emergency model) together with the properties the specification states
    about them.

    Modelling conventions.
    - A Mongoose collection is a finite map from document ids to records;
      [findById] is a lookup and [save] an insert at the document's id.
      A document loaded by a handler is a private copy: an assignment to one
      of its fields reaches the store only through [save].
    - A handler is a computation in a state-and-error monad over the store.
      A [throw] keeps the store as it is at that point, so every write that
      was saved before the throw stays visible, as in the source, which has
      no transactions.
    - [new Date()] and the outcome of the external route computation are
      inputs of the handlers.  SMS and socket notifications do not touch the
      store and cannot fail the request (their promises carry a [catch]);
      they are left out.
    - Counters are integers; money amounts, ratings and rating averages are
      exact rationals where the source computes with JavaScript numbers.
      What is stated about them are comparisons, bounds and the expression
      the handler itself evaluates, none of which rests on an identity of
      exact arithmetic.
    - What the source leaves to the database or to the runtime (the cast of
      a request parameter to an [ObjectId], a [skip] or [limit] outside the
      usual range, a field that the records here do not carry) is a
      parameter of the definitions concerned. *)

From Stdlib Require Import ZArith QArith Lqa List Ascii.
From stdpp Require Import gmap strings list option sorting.

Local Open Scope string_scope.
Local Open Scope list_scope.
Local Open Scope Z_scope.

(** ** Documents *)

Abbreviation oid := string.

Inductive Role := user | driver | admin | hospital_admin.

Inductive EmergencyStatus :=
  | pending | assigned | en_route | arrived_at_patient
  | transporting | arrived_at_hospital | completed | cancelled.

Inductive AmbulanceStatus := available | busy | maintenance | offline.

Inductive TimelineStatus :=
  | emergency_requested | ambulance_assigned | ambulance_en_route
  | ambulance_arrived_at_patient | patient_picked_up | en_route_to_hospital
  | tl_arrived_at_hospital | patient_handed_over
  | emergency_completed | emergency_cancelled.

#[global] Instance Role_eq_dec : EqDecision Role.
Proof. solve_decision. Defined.
#[global] Instance EmergencyStatus_eq_dec : EqDecision EmergencyStatus.
Proof. solve_decision. Defined.
#[global] Instance AmbulanceStatus_eq_dec : EqDecision AmbulanceStatus.
Proof. solve_decision. Defined.

Record User := mkUser {
  u_id : oid;
  u_name : string;
  u_phone : string;
  u_role : Role
}.

Record Ambulance := mkAmbulance {
  registrationNumber : string;
  a_hospital : option oid;
  a_driver : option oid;
  a_status : AmbulanceStatus;
  activeEmergency : option oid
}.

Record Capacity := mkCapacity { total : Z; cap_available : Z }.

Record Rating := mkRating { average : Q; count : Z }.

Record Hospital := mkHospital {
  h_name : string;
  administrators : list oid;
  emergencyCapacity : Capacity;
  h_rating : Rating
}.

(** The route as the Emergency schema declares it: [route.polyline] is a
    [String]. *)
Record Route := mkRoute {
  distance : string * Z;
  duration : string * Z;
  polyline : string
}.

(** What [calculateRoute] (config/maps.js) returns to the assign handler:
    the distance and the duration of the first leg, and for [polyline] the
    [overview_polyline] of the maps provider, an object [{ points }]. *)
Record OverviewPolyline := mkOverviewPolyline { points : string }.

Record RouteResult := mkRouteResult {
  rr_distance : string * Z;
  rr_duration : string * Z;
  rr_polyline : OverviewPolyline
}.

Record TimelineEntry := mkEntry {
  tl_status : TimelineStatus;
  tl_time : Z;
  tl_notes : string
}.

Record Feedback := mkFeedback {
  fb_rating : Q;
  fb_comment : option string;
  submittedAt : Z
}.

(** The [payment] sub-document of an emergency: its status (with its own
    enum, default ['pending']) and the transaction id. *)
Inductive EmergencyPaymentStatus :=
  | ep_pending | ep_paid | ep_free | ep_insurance_submitted
  | ep_hospital_covered.

Record EmergencyPayment := mkEmergencyPayment {
  ep_status : EmergencyPaymentStatus;
  ep_transactionId : option string
}.

Record Emergency := mkEmergency {
  patient : oid;
  requestedBy : oid;
  e_status : EmergencyStatus;
  e_ambulance : option oid;
  e_hospital : option oid;
  e_route : option Route;
  timeline : list TimelineEntry;
  feedback : option Feedback;
  e_payment : EmergencyPayment
}.

Inductive PaymentStatus :=
  | pay_pending | pay_processing | pay_completed
  | pay_refunded | pay_failed | pay_cancelled.

#[global] Instance PaymentStatus_eq_dec : EqDecision PaymentStatus.
Proof. solve_decision. Defined.

(** The refund sub-document.  Its [status] is always ['completed'] and its
    [transactionId] is ["REF-"] followed by the clock value kept in
    [r_processedAt]. *)
Record Refund := mkRefund {
  r_amount : Q;
  r_reason : string;
  r_processedAt : Z
}.

Record Payment := mkPayment {
  p_emergency : oid;
  p_patient : oid;
  p_amount : Q;
  p_status : PaymentStatus;
  p_refund : option Refund;
  p_transactionId : option string;
  p_receiptUrl : option string
}.

(** ** The store *)

Record Store := mkStore {
  users : gmap oid User;
  ambulances : gmap oid Ambulance;
  hospitals : gmap oid Hospital;
  emergencies : gmap oid Emergency;
  payments : gmap oid Payment
}.

Definition set_ambulances (f : gmap oid Ambulance → gmap oid Ambulance) (st : Store) : Store :=
  mkStore (users st) (f (ambulances st)) (hospitals st) (emergencies st) (payments st).
Definition set_hospitals (f : gmap oid Hospital → gmap oid Hospital) (st : Store) : Store :=
  mkStore (users st) (ambulances st) (f (hospitals st)) (emergencies st) (payments st).
Definition set_emergencies (f : gmap oid Emergency → gmap oid Emergency) (st : Store) : Store :=
  mkStore (users st) (ambulances st) (hospitals st) (f (emergencies st)) (payments st).
Definition set_payments (f : gmap oid Payment → gmap oid Payment) (st : Store) : Store :=
  mkStore (users st) (ambulances st) (hospitals st) (emergencies st) (f (payments st)).

(** ** Failures

    One constructor per [throw] (or middleware rejection) of the handlers,
    with the HTTP status the error handler reports and the message text. *)

Inductive Error :=
  | AmbulanceIdRequired | EmergencyNotFound | NotAuthorizedToAssign
  | AmbulanceNotFound | AmbulanceNotAvailable | AmbulanceHasNoDriver
  | HospitalNotFound | HospitalNoCapacity
  | StatusRequired | InvalidStatus
  | NotAuthorizedToCancel | CannotCancelCompleted | NotAuthorizedToUpdate
  | MustBeAssigned | MustBeEnRoute | MustArriveAtPatient
  | MustBeTransporting | MustArriveAtHospital
  | RatingInvalid | NotAuthorizedFeedback | FeedbackNotCompleted
  | NotAuthorizedAsAdmin | PaymentNotFound | OnlyCompletedRefundable
  | InvalidRefundAmount
  | LatLngRequired
  | EmergencyValidationFailed
  | InternalError.

Definition statusCode (e : Error) : Z :=
  match e with
  | EmergencyNotFound | AmbulanceNotFound | HospitalNotFound
  | PaymentNotFound => 404
  | NotAuthorizedToAssign | NotAuthorizedToCancel | NotAuthorizedToUpdate
  | NotAuthorizedFeedback | NotAuthorizedAsAdmin => 403
  | EmergencyValidationFailed | InternalError => 500
  | _ => 400
  end.

Definition message (e : Error) : string :=
  match e with
  | AmbulanceIdRequired => "Ambulance ID is required"
  | EmergencyNotFound => "Emergency not found"
  | NotAuthorizedToAssign => "Not authorized to assign ambulance"
  | AmbulanceNotFound => "Ambulance not found"
  | AmbulanceNotAvailable => "Ambulance is not available"
  | AmbulanceHasNoDriver => "Ambulance has no assigned driver"
  | HospitalNotFound => "Hospital not found"
  | HospitalNoCapacity => "Hospital has no available emergency capacity"
  | StatusRequired => "Status is required"
  | InvalidStatus => "Invalid status"
  | NotAuthorizedToCancel => "Not authorized to cancel this emergency"
  | CannotCancelCompleted => "Cannot cancel a completed emergency"
  | NotAuthorizedToUpdate => "Not authorized to update this emergency status"
  | MustBeAssigned => "Emergency must be assigned before going en route"
  | MustBeEnRoute => "Ambulance must be en route before arriving at patient"
  | MustArriveAtPatient => "Ambulance must arrive at patient before transporting"
  | MustBeTransporting => "Patient must be in transport before arriving at hospital"
  | MustArriveAtHospital => "Emergency must arrive at hospital before completion"
  | RatingInvalid => "Rating is required and must be between 1 and 5"
  | NotAuthorizedFeedback => "Not authorized to add feedback to this emergency"
  | FeedbackNotCompleted => "Can only add feedback to completed emergencies"
  | NotAuthorizedAsAdmin => "Not authorized as an admin"
  | PaymentNotFound => "Payment not found"
  | OnlyCompletedRefundable => "Only completed payments can be refunded"
  | InvalidRefundAmount => "Invalid refund amount"
  | LatLngRequired => "Latitude and longitude are required"
  | EmergencyValidationFailed => "Emergency validation failed"
  | InternalError => "Internal error"
  end.

(** The error taxonomy of the specification (section 7).  The server only
    distinguishes HTTP statuses; among the 400 responses the class follows
    from what the check that threw was about. *)
Inductive ErrorKind :=
  | NotFound | Forbidden | Conflict | InvalidTransition | ValidationError
  | Unhandled.

Definition kind (e : Error) : ErrorKind :=
  match e with
  | EmergencyNotFound | AmbulanceNotFound | HospitalNotFound
  | PaymentNotFound => NotFound
  | NotAuthorizedToAssign | NotAuthorizedToCancel | NotAuthorizedToUpdate
  | NotAuthorizedFeedback | NotAuthorizedAsAdmin => Forbidden
  | AmbulanceNotAvailable | AmbulanceHasNoDriver | HospitalNoCapacity
  | FeedbackNotCompleted | OnlyCompletedRefundable => Conflict
  | CannotCancelCompleted | MustBeAssigned | MustBeEnRoute
  | MustArriveAtPatient | MustBeTransporting
  | MustArriveAtHospital => InvalidTransition
  | AmbulanceIdRequired | StatusRequired | InvalidStatus | RatingInvalid
  | InvalidRefundAmount | LatLngRequired => ValidationError
  | EmergencyValidationFailed | InternalError => Unhandled
  end.

(** ** The handler monad *)

Inductive result (A : Type) :=
  | Ok (a : A)
  | Throw (e : Error).
Arguments Ok {A} a.
Arguments Throw {A} e.

Definition handler (A : Type) : Type := Store → Store * result A.

#[global] Instance handler_ret : MRet handler :=
  λ A a st, (st, Ok a).

#[global] Instance handler_bind : MBind handler :=
  λ A B f m st,
    match m st with
    | (st', Ok a) => f a st'
    | (st', Throw e) => (st', Throw e)
    end.

Definition throw {A} (e : Error) : handler A := λ st, (st, Throw e).
Definition gets {A} (f : Store → A) : handler A := λ st, (st, Ok (f st)).
Definition modify (f : Store → Store) : handler unit := λ st, (f st, Ok tt).

(** [if (!x) { res.status(..); throw ... }] for a looked-up document. *)
Definition orThrow {A} (o : option A) (e : Error) : handler A :=
  match o with
  | Some a => mret a
  | None => throw e
  end.

(** [if (c) { res.status(..); throw ... }]. *)
Definition throwIf (c : bool) (e : Error) : handler unit :=
  if c then throw e else mret tt.

Definition succeeded {A} (r : Store * result A) : Prop :=
  match r.2 with
  | Ok _ => True
  | Throw _ => False
  end.

Definition failed {A} (r : Store * result A) : Prop :=
  match r.2 with
  | Ok _ => False
  | Throw _ => True
  end.

(** A request parameter that JavaScript treats as present: neither
    [undefined] nor the empty string. *)
Definition given (o : option string) : option string :=
  match o with
  | Some s => if decide (s = EmptyString) then None else Some s
  | None => None
  end.

Definition User_findById (id : oid) : handler (option User) :=
  gets (λ st, users st !! id).
Definition Ambulance_findById (id : oid) : handler (option Ambulance) :=
  gets (λ st, ambulances st !! id).
Definition Hospital_findById (id : oid) : handler (option Hospital) :=
  gets (λ st, hospitals st !! id).
Definition Emergency_findById (id : oid) : handler (option Emergency) :=
  gets (λ st, emergencies st !! id).
Definition Payment_findById (id : oid) : handler (option Payment) :=
  gets (λ st, payments st !! id).

(** [populate(path)]: the referenced document, or [null] when the reference
    is unset or dangling. *)
Definition populate {A} (find : oid → handler (option A)) (ref : option oid)
    : handler (option A) :=
  match ref with
  | Some id => find id
  | None => mret None
  end.

(** [Model.findById(ref)] on a reference field that may be unset. *)
Definition findByRef {A} (find : oid → handler (option A)) (ref : option oid)
    : handler (option (oid * A)) :=
  match ref with
  | Some id =>
      found ← find id;
      mret (match found with
            | Some doc => Some (id, doc)
            | None => None
            end)
  | None => mret None
  end.

(** ** The Emergency model *)

Definition validStatuses : list (string * EmergencyStatus) :=
  [ ("pending", pending); ("assigned", assigned); ("en_route", en_route);
    ("arrived_at_patient", arrived_at_patient);
    ("transporting", transporting);
    ("arrived_at_hospital", arrived_at_hospital);
    ("completed", completed); ("cancelled", cancelled) ].

Fixpoint assoc {A} (k : string) (l : list (string * A)) : option A :=
  match l with
  | [] => None
  | (k', v) :: l' => if decide (k = k') then Some v else assoc k l'
  end.

Definition status_name (s : EmergencyStatus) : string :=
  match s with
  | pending => "pending"
  | assigned => "assigned"
  | en_route => "en_route"
  | arrived_at_patient => "arrived_at_patient"
  | transporting => "transporting"
  | arrived_at_hospital => "arrived_at_hospital"
  | completed => "completed"
  | cancelled => "cancelled"
  end.

(** [statusMap] of [emergencySchema.methods.updateStatus]. *)
Definition statusMap (s : EmergencyStatus) : TimelineStatus :=
  match s with
  | pending => emergency_requested
  | assigned => ambulance_assigned
  | en_route => ambulance_en_route
  | arrived_at_patient => ambulance_arrived_at_patient
  | transporting => patient_picked_up
  | arrived_at_hospital => tl_arrived_at_hospital
  | completed => emergency_completed
  | cancelled => emergency_cancelled
  end.

Definition with_status (emergency : Emergency) (status : EmergencyStatus)
    (entry : TimelineEntry) : Emergency :=
  mkEmergency (patient emergency) (requestedBy emergency) status
    (e_ambulance emergency) (e_hospital emergency) (e_route emergency)
    (timeline emergency ++ [entry]) (feedback emergency)
    (e_payment emergency).

Definition Emergency_save (id : oid) (emergency : Emergency) : handler unit :=
  modify (set_emergencies (insert id emergency)).

Definition Ambulance_save (id : oid) (ambulance : Ambulance) : handler unit :=
  modify (set_ambulances (insert id ambulance)).

Definition Hospital_save (id : oid) (hospital : Hospital) : handler unit :=
  modify (set_hospitals (insert id hospital)).

Definition Payment_save (id : oid) (payment : Payment) : handler unit :=
  modify (set_payments (insert id payment)).

(** [emergency.updateStatus(status, notes)]: set the status, push the
    timeline entry, save.  Returns the document as the handler holds it
    afterwards. *)
Definition updateStatus (id : oid) (emergency : Emergency)
    (status : EmergencyStatus) (notes : option string) (now : Z)
    : handler Emergency :=
  let emergency' :=
    with_status emergency status
      (mkEntry (statusMap status) now (default EmptyString notes)) in
  _ ← Emergency_save id emergency';
  mret emergency'.

(** ** PUT /api/emergencies/:id/assign *)

(** A value assigned to a [String] path of a document.  Mongoose keeps a
    string; a plain object is not cast, the path is marked invalid and the
    next [save] rejects the document. *)
Inductive JsValue :=
  | JsString (s : string)
  | JsObject (keys : list string).

Definition castString (v : JsValue) : option string :=
  match v with
  | JsString s => Some s
  | JsObject _ => None
  end.

Definition polyline_value (p : OverviewPolyline) : JsValue :=
  JsObject ["points"].

(** [emergency.route = { distance, duration, polyline }] with the fields of
    the computed route. *)
Definition cast_route (r : RouteResult) : option Route :=
  polyline ← castString (polyline_value (rr_polyline r));
  Some (mkRoute (rr_distance r) (rr_duration r) polyline).

Record AssignResponse := mkAssignResponse {
  ar_status : EmergencyStatus;
  ar_route : option Route;
  ar_ambulance : oid;
  ar_hospital : option oid
}.

Definition is_hospital_admin_of (req_user : User) (hospitalId : option oid)
    (st : Store) : bool :=
  bool_decide (u_role req_user = hospital_admin) &&
  match given hospitalId with
  | Some hid =>
      match hospitals st !! hid with
      | Some h => bool_decide (u_id req_user ∈ administrators h)
      | None => false
      end
  | None => false
  end.

Definition put_assign (req_user : User) (id : oid)
    (ambulanceId hospitalId : option oid) (routeResult : option RouteResult)
    (now : Z) : handler AssignResponse :=
  ambulanceId ← orThrow (given ambulanceId) AmbulanceIdRequired;
  found ← Emergency_findById id;
  emergency ← orThrow found EmergencyNotFound;
  (* admin, or hospital admin of the hospital named in the request *)
  let isAdmin := bool_decide (u_role req_user = admin) in
  isHospitalAdmin ← gets (is_hospital_admin_of req_user hospitalId);
  _ ← throwIf (negb isAdmin && negb isHospitalAdmin) NotAuthorizedToAssign;
  (* the ambulance, with its driver populated *)
  found ← Ambulance_findById ambulanceId;
  ambulance ← orThrow found AmbulanceNotFound;
  populated_driver ← populate User_findById (a_driver ambulance);
  _ ← throwIf (negb (bool_decide (a_status ambulance = available)))
        AmbulanceNotAvailable;
  _ ← throwIf (negb (bool_decide (is_Some populated_driver)))
        AmbulanceHasNoDriver;
  (* the hospital, when one is named *)
  hospital ←
    match given hospitalId with
    | Some hid =>
        found ← Hospital_findById hid;
        hospital ← orThrow found HospitalNotFound;
        _ ← throwIf (bool_decide (cap_available (emergencyCapacity hospital) ≤ 0))
              HospitalNoCapacity;
        mret (Some (hid, hospital))
    | None => mret None
    end;
  (* update the emergency; a failed route computation leaves the route, a
     computed one is set, and emergency.save() rejects the document when
     its polyline was not cast *)
  route ←
    match routeResult with
    | Some r =>
        route ← orThrow (cast_route r) EmergencyValidationFailed;
        mret (Some route)
    | None => mret (e_route emergency)
    end;
  let emergency' :=
    mkEmergency (patient emergency) (requestedBy emergency) assigned
      (Some ambulanceId)
      (match given hospitalId with
       | Some hid => Some hid
       | None => e_hospital emergency
       end)
      route
      (timeline emergency ++
         [mkEntry ambulance_assigned now
            ("Ambulance " +:+ registrationNumber ambulance +:+
             " assigned by " +:+ u_name req_user)])
      (feedback emergency) (e_payment emergency) in
  _ ← Emergency_save id emergency';
  (* the ambulance becomes busy *)
  _ ← Ambulance_save ambulanceId
        (mkAmbulance (registrationNumber ambulance) (a_hospital ambulance)
           (a_driver ambulance) busy (Some id));
  (* one unit of the hospital's capacity is taken *)
  _ ← match hospital with
      | Some (hid, h) =>
          Hospital_save hid
            (mkHospital (h_name h) (administrators h)
               (mkCapacity (total (emergencyCapacity h))
                  (Z.max 0 (cap_available (emergencyCapacity h) - 1)))
               (h_rating h))
      | None => mret tt
      end;
  mret (mkAssignResponse (e_status emergency') (e_route emergency')
          ambulanceId (fst <$> hospital)).

(** ** PUT /api/emergencies/:id/status *)

Record StatusResponse := mkStatusResponse {
  sr_status : EmergencyStatus;
  sr_timeline : list TimelineEntry
}.

(** The handler once [status] has passed the [validStatuses] check. *)
Definition put_status_valid (req_user : User) (id : oid)
    (status : EmergencyStatus) (notes : option string) (now : Z)
    : handler StatusResponse :=
  found ← Emergency_findById id;
  emergency ← orThrow found EmergencyNotFound;
  (* populate('ambulance'), populate('hospital'), populate('patient') *)
  populated_ambulance ← populate Ambulance_findById (e_ambulance emergency);
  populated_hospital ← populate Hospital_findById (e_hospital emergency);
  populated_patient ← User_findById (patient emergency);
  (* emergency.patient._id of a missing patient is a TypeError *)
  _ ← orThrow populated_patient InternalError;
  let isAdmin := bool_decide (u_role req_user = admin) in
  let isPatient := bool_decide (patient emergency = u_id req_user) in
  let isRequester := bool_decide (requestedBy emergency = u_id req_user) in
  isDriver ←
    match populated_ambulance with
    | Some _ =>
        ambulance ← findByRef Ambulance_findById (e_ambulance emergency);
        mret (match ambulance with
              | Some (_, a) => bool_decide (a_driver a = Some (u_id req_user))
              | None => false
              end)
    | None => mret false
    end;
  (* authorization per requested status *)
  _ ← (if bool_decide (status = cancelled) then
         _ ← throwIf (negb isAdmin && negb isPatient && negb isRequester)
               NotAuthorizedToCancel;
         throwIf (bool_decide (e_status emergency = completed))
           CannotCancelCompleted
       else if bool_decide (status ∈ [en_route; arrived_at_patient;
                                      transporting; arrived_at_hospital;
                                      completed]) then
         throwIf (negb isAdmin && negb isDriver) NotAuthorizedToUpdate
       else mret tt);
  (* status-specific validation *)
  _ ← throwIf (bool_decide (status = en_route) &&
               negb (bool_decide (e_status emergency = assigned)))
        MustBeAssigned;
  _ ← throwIf (bool_decide (status = arrived_at_patient) &&
               negb (bool_decide (e_status emergency ∈ [assigned; en_route])))
        MustBeEnRoute;
  _ ← throwIf (bool_decide (status = transporting) &&
               negb (bool_decide (e_status emergency ∈ [arrived_at_patient])))
        MustArriveAtPatient;
  _ ← throwIf (bool_decide (status = arrived_at_hospital) &&
               negb (bool_decide (e_status emergency ∈ [transporting])))
        MustBeTransporting;
  _ ← throwIf (bool_decide (status = completed) &&
               negb (bool_decide (e_status emergency ∈ [arrived_at_hospital])))
        MustArriveAtHospital;
  emergency ← updateStatus id emergency status notes now;
  (* completed or cancelled: free the ambulance, restore the capacity *)
  _ ← (if bool_decide (status = completed) || bool_decide (status = cancelled)
       then
         _ ← match populated_ambulance with
             | Some _ =>
                 found ← findByRef Ambulance_findById (e_ambulance emergency);
                 match found with
                 | Some (aid, a) =>
                     Ambulance_save aid
                       (mkAmbulance (registrationNumber a) (a_hospital a)
                          (a_driver a) available None)
                 | None => mret tt
                 end
             | None => mret tt
             end;
         if bool_decide (status = completed) then
           match populated_hospital with
           | Some _ =>
               found ← findByRef Hospital_findById (e_hospital emergency);
               match found with
               | Some (hid, h) =>
                   Hospital_save hid
                     (mkHospital (h_name h) (administrators h)
                        (mkCapacity (total (emergencyCapacity h))
                           (Z.min (total (emergencyCapacity h))
                              (cap_available (emergencyCapacity h) + 1)))
                        (h_rating h))
               | None => mret tt
               end
           | None => mret tt
           end
         else mret tt
       else mret tt);
  mret (mkStatusResponse (e_status emergency) (timeline emergency)).

Definition put_status (req_user : User) (id : oid)
    (status notes : option string) (now : Z) : handler StatusResponse :=
  status ← orThrow (given status) StatusRequired;
  status ← orThrow (assoc status validStatuses) InvalidStatus;
  put_status_valid req_user id status notes now.

(** ** POST /api/emergencies/:id/feedback *)

Definition Qltb (x y : Q) : bool := negb (Qle_bool y x).

(** The running average of the handler, on exact rationals. *)
Definition newAvg (r : Rating) (rating : Q) : Q :=
  ((average r * inject_Z (count r) + rating) / inject_Z (count r + 1))%Q.

(** [hospital.save()] validates the modified [rating.average] against the
    schema ([min: 0], [max: 5]); a division by zero gives no valid number. *)
Definition average_valid (r : Rating) (avg : Q) : bool :=
  negb (bool_decide (count r + 1 = 0)) && Qle_bool 0 avg && Qle_bool avg 5.

Definition post_feedback (req_user : User) (id : oid) (rating : option Q)
    (comment : option string) (now : Z) : handler Feedback :=
  rating ← orThrow rating RatingInvalid;
  _ ← throwIf (Qeq_bool rating 0 || Qltb rating 1 || Qltb 5 rating)
        RatingInvalid;
  found ← Emergency_findById id;
  emergency ← orThrow found EmergencyNotFound;
  (* only patient or requester *)
  _ ← throwIf (negb (bool_decide (patient emergency = u_id req_user)) &&
               negb (bool_decide (requestedBy emergency = u_id req_user)))
        NotAuthorizedFeedback;
  _ ← throwIf (negb (bool_decide (e_status emergency = completed)))
        FeedbackNotCompleted;
  let fb := mkFeedback rating comment now in
  _ ← Emergency_save id
        (mkEmergency (patient emergency) (requestedBy emergency)
           (e_status emergency) (e_ambulance emergency) (e_hospital emergency)
           (e_route emergency) (timeline emergency) (Some fb)
           (e_payment emergency));
  found ← findByRef Hospital_findById (e_hospital emergency);
  _ ← match found with
      | Some (hid, h) =>
          let avg := newAvg (h_rating h) rating in
          _ ← throwIf (negb (average_valid (h_rating h) avg)) InternalError;
          Hospital_save hid
            (mkHospital (h_name h) (administrators h) (emergencyCapacity h)
               (mkRating avg (count (h_rating h) + 1)))
      | None => mret tt
      end;
  mret fb.

(** ** POST /api/payments/:id/refund *)

Definition post_refund (req_user : User) (id : oid) (amount : option Q)
    (reason : option string) (now : Z) : handler Payment :=
  (* the [admin] middleware *)
  _ ← throwIf (negb (bool_decide (u_role req_user = admin))) NotAuthorizedAsAdmin;
  found ← Payment_findById id;
  payment ← orThrow found PaymentNotFound;
  _ ← throwIf (negb (bool_decide (p_status payment = pay_completed)))
        OnlyCompletedRefundable;
  amount ← orThrow amount InvalidRefundAmount;
  _ ← throwIf (Qeq_bool amount 0 || Qle_bool amount 0 ||
               Qltb (p_amount payment) amount)
        InvalidRefundAmount;
  let payment' :=
    mkPayment (p_emergency payment) (p_patient payment) (p_amount payment)
      (if Qeq_bool amount (p_amount payment) then pay_refunded
       else pay_completed)
      (Some (mkRefund amount (default "Customer request" (given reason)) now))
      (p_transactionId payment) (p_receiptUrl payment) in
  _ ← Payment_save id payment';
  mret payment'.

(** ** The handler registered for GET /api/hospitals/nearby

    The body of the handler.  Which requests reach it is a matter of the
    router (see the hospital router below). *)

Record Coordinates := mkCoordinates { lat : Q; lng : Q }.

(** What [Hospital.findNearest] selects from a stored hospital. *)
Record NearHospital := mkNearHospital {
  nh_name : string;
  nh_phone : string;
  nh_capacity : Capacity
}.

(** A place as the maps provider reports it. *)
Record Place := mkPlace {
  pl_name : string;
  vicinity : string;
  pl_location : Coordinates;
  formatted_phone_number : option string;
  pl_rating : option Q;
  user_ratings_total : option Z;
  place_id : string
}.

(** A provider place in the shape the handler returns it. *)
Record GoogleHospital := mkGoogleHospital {
  gh_name : string;
  gh_street : string;
  gh_coordinates : Q * Q;
  gh_phone : string;
  gh_rating : Rating;
  googlePlaceId : string
}.

Inductive NearbyEntry :=
  | Internal (h : NearHospital)
  | External (g : GoogleHospital).

Inductive NearbySource := database | combined.

Record NearbyResponse := mkNearbyResponse {
  nr_source : NearbySource;
  nr_count : nat;
  nr_data : list NearbyEntry;
  nr_error : option string
}.

(** [l.slice(0, n)]. *)
Definition slice0 {A} (l : list A) (n : Z) : list A :=
  if bool_decide (0 ≤ n) then take (Z.to_nat n) l
  else take (Z.to_nat (Z.of_nat (length l) + n)) l.

Definition toGoogleHospital (h : Place) : GoogleHospital :=
  mkGoogleHospital (pl_name h) (vicinity h)
    (lng (pl_location h), lat (pl_location h))
    (default EmptyString (given (formatted_phone_number h)))
    (mkRating (default 0%Q (pl_rating h)) (default 0 (user_ratings_total h)))
    (place_id h).

Section Nearby.
(** The collaborators: the store's geospatial query (taken to answer, as
    the store does everywhere in this model), the maps provider (a list of
    places, or the message of the error it threw) and
    [String.prototype.toLowerCase]. *)
Variable findNearest : Coordinates → Z → Z → list NearHospital.
Variable getNearbyHospitals : Coordinates → Z → string + list Place.
Variable toLowerCase : string → string.

Definition filteredGoogleHospitals (dbHospitals : list NearHospital)
    (googleHospitals : list Place) : list GoogleHospital :=
  let dbHospitalNames := map (λ h, toLowerCase (nh_name h)) dbHospitals in
  map toGoogleHospital
    (filter (λ h, toLowerCase (pl_name h) ∉ dbHospitalNames) googleHospitals).

Definition get_nearby (qlat qlng : option Q) (radius limit : option Z)
    : result NearbyResponse :=
  let radius := default 5000 radius in
  let limit := default 5 limit in
  match qlat, qlng with
  | Some la, Some lo =>
      let coordinates := mkCoordinates la lo in
      let dbHospitals := findNearest coordinates radius limit in
      if bool_decide (limit ≤ Z.of_nat (length dbHospitals)) then
        Ok (mkNearbyResponse database (length dbHospitals)
              (map Internal dbHospitals) None)
      else
        match getNearbyHospitals coordinates radius with
        | inr googleHospitals =>
            let combinedResults :=
              map Internal dbHospitals ++
              map External
                (slice0 (filteredGoogleHospitals dbHospitals googleHospitals)
                   (limit - Z.of_nat (length dbHospitals))) in
            Ok (mkNearbyResponse combined (length combinedResults)
                  combinedResults None)
        | inl error_message =>
            (* the catch block queries the store again *)
            let dbHospitals := findNearest coordinates radius limit in
            Ok (mkNearbyResponse database (length dbHospitals)
                  (map Internal dbHospitals) (Some error_message))
        end
  | _, _ => Throw LatLngRequired
  end.
End Nearby.

(** ** The transition table of the specification (section 4.1)

    [transition_table current next] holds when the table lists [current]
    as a required current state of [next].  The table has no row for
    [pending]. *)
Definition transition_table (current next : EmergencyStatus) : bool :=
  match next with
  | pending => false
  | assigned => bool_decide (current = pending)
  | en_route => bool_decide (current = assigned)
  | arrived_at_patient => bool_decide (current ∈ [assigned; en_route])
  | transporting => bool_decide (current = arrived_at_patient)
  | arrived_at_hospital => bool_decide (current = transporting)
  | completed => bool_decide (current = arrived_at_hospital)
  | cancelled => negb (bool_decide (current = completed))
  end.

(** The statuses whose predecessor the status handler checks. *)
Definition guarded (next : EmergencyStatus) : bool :=
  bool_decide (next ∈ [en_route; arrived_at_patient; transporting;
                       arrived_at_hospital; completed; cancelled]).

(** ** Requests and runs *)

Inductive Request :=
  | Assign (req_user : User) (id : oid) (ambulanceId hospitalId : option oid)
      (routeResult : option RouteResult) (now : Z)
  | UpdateStatus (req_user : User) (id : oid) (status notes : option string)
      (now : Z).

Definition serve (st : Store) (r : Request) : Store :=
  match r with
  | Assign u id a h rt now => (put_assign u id a h rt now st).1
  | UpdateStatus u id s n now => (put_status u id s n now st).1
  end.

Definition run (rs : list Request) (st : Store) : Store :=
  fold_left serve rs st.

(** The capacity invariant of a hospital document. *)
Definition capacity_ok (h : Hospital) : Prop :=
  0 ≤ cap_available (emergencyCapacity h) ≤ total (emergencyCapacity h).

(** ** What the handlers write

    The stores a successful request leaves behind, written out once so that
    the properties below can name them. *)

Definition released (a : Ambulance) : Ambulance :=
  mkAmbulance (registrationNumber a) (a_hospital a) (a_driver a) available None.

Definition dispatched (id : oid) (a : Ambulance) : Ambulance :=
  mkAmbulance (registrationNumber a) (a_hospital a) (a_driver a) busy (Some id).

Definition restored (h : Hospital) : Hospital :=
  mkHospital (h_name h) (administrators h)
    (mkCapacity (total (emergencyCapacity h))
       (Z.min (total (emergencyCapacity h))
          (cap_available (emergencyCapacity h) + 1)))
    (h_rating h).

Definition taken (h : Hospital) : Hospital :=
  mkHospital (h_name h) (administrators h)
    (mkCapacity (total (emergencyCapacity h))
       (Z.max 0 (cap_available (emergencyCapacity h) - 1)))
    (h_rating h).

Definition release_ambulance (e : Emergency) (st : Store) : Store :=
  match e_ambulance e with
  | Some aid =>
      match ambulances st !! aid with
      | Some a => set_ambulances (insert aid (released a)) st
      | None => st
      end
  | None => st
  end.

Definition restore_capacity (e : Emergency) (st : Store) : Store :=
  match e_hospital e with
  | Some hid =>
      match hospitals st !! hid with
      | Some h => set_hospitals (insert hid (restored h)) st
      | None => st
      end
  | None => st
  end.

Definition status_effect (id : oid) (e : Emergency) (s : EmergencyStatus)
    (notes : option string) (now : Z) (st : Store) : Store :=
  let st1 :=
    set_emergencies
      (insert id (with_status e s (mkEntry (statusMap s) now (default EmptyString notes))))
      st in
  match s with
  | completed => restore_capacity e (release_ambulance e st1)
  | cancelled => release_ambulance e st1
  | _ => st1
  end.

Definition assigned_emergency (req_user : User) (e : Emergency) (aid : oid)
    (a : Ambulance) (hospitalId : option oid) (now : Z) : Emergency :=
  mkEmergency (patient e) (requestedBy e) assigned (Some aid)
    (match given hospitalId with
     | Some hid => Some hid
     | None => e_hospital e
     end)
    (e_route e)
    (timeline e ++
       [mkEntry ambulance_assigned now
          ("Ambulance " +:+ registrationNumber a +:+
           " assigned by " +:+ u_name req_user)])
    (feedback e) (e_payment e).

Definition assign_effect (req_user : User) (id : oid) (e : Emergency)
    (aid : oid) (a : Ambulance) (hospitalId : option oid)
    (now : Z) (st : Store) : Store :=
  let st2 :=
    set_ambulances (insert aid (dispatched id a))
      (set_emergencies
         (insert id (assigned_emergency req_user e aid a hospitalId now))
         st) in
  match given hospitalId with
  | Some hid =>
      match hospitals st !! hid with
      | Some h => set_hospitals (insert hid (taken h)) st2
      | None => st2
      end
  | None => st2
  end.

(** The checks of the assign handler, in the order it makes them. *)
Definition authorized_to_assign (req_user : User) (hospitalId : option oid)
    (st : Store) : bool :=
  bool_decide (u_role req_user = admin) ||
  is_hospital_admin_of req_user hospitalId st.

Definition has_driver (a : Ambulance) (st : Store) : bool :=
  bool_decide (is_Some (a_driver a ≫= (users st !!.))).

Definition hospital_ready (hospitalId : option oid) (st : Store) : bool :=
  match given hospitalId with
  | Some hid =>
      match hospitals st !! hid with
      | Some h => bool_decide (0 < cap_available (emergencyCapacity h))
      | None => false
      end
  | None => true
  end.

(** Who may request which status: the authorization branch of the status
    handler. *)
Definition is_driver_of (req_user : User) (e : Emergency) (st : Store) : bool :=
  match e_ambulance e ≫= (ambulances st !!.) with
  | Some a => bool_decide (a_driver a = Some (u_id req_user))
  | None => false
  end.

Definition authorized_for (req_user : User) (e : Emergency)
    (s : EmergencyStatus) (st : Store) : bool :=
  let isAdmin := bool_decide (u_role req_user = admin) in
  match s with
  | cancelled =>
      isAdmin || bool_decide (patient e = u_id req_user) ||
      bool_decide (requestedBy e = u_id req_user)
  | pending | assigned => true
  | _ => isAdmin || is_driver_of req_user e st
  end.

(** ** Sample data *)

Definition patient_u : User := mkUser "u1" "Asha" "+911" user.
Definition driver_d : User := mkUser "d1" "Ravi" "+912" driver.
Definition admin_r : User := mkUser "adm" "Root" "+913" admin.
Definition stranger : User := mkUser "u2" "Zed" "+914" user.

Definition sample_users : gmap oid User :=
  <["u1":=patient_u]> (<["d1":=driver_d]> (<["adm":=admin_r]>
    (<["u2":=stranger]> ∅))).

Definition sample_ambulance : Ambulance :=
  mkAmbulance "KA-01" (Some "h1") (Some "d1") available None.

(** A route as the maps provider computes it. *)
Definition sample_route : RouteResult :=
  mkRouteResult ("3.2 km", 3200) ("5 mins", 300)
    (mkOverviewPolyline "a~l~Fjk~uOwHJy@P").

Definition sample_hospital : Hospital :=
  mkHospital "City Hospital" [] (mkCapacity 5 1) (mkRating 0 0).

Definition sample_emergency (s : EmergencyStatus) : Emergency :=
  mkEmergency "u1" "u1" s None None None [] None
    (mkEmergencyPayment ep_pending None).

(** The scenario of the specification: hospital ["h1"] with capacity
    [{total: 5, available: 1}], ambulance ["a1"] available with driver
    ["d1"], emergency ["e1"] in status [s]. *)
Definition scenario (s : EmergencyStatus) : Store :=
  mkStore sample_users
    (<["a1":=sample_ambulance]> ∅)
    (<["h1":=sample_hospital]> ∅)
    (<["e1":=sample_emergency s]> ∅)
    ∅.

Definition available_at (hid : oid) (st : Store) : option Z :=
  (λ h, cap_available (emergencyCapacity h)) <$> hospitals st !! hid.

Definition status_at (id : oid) (st : Store) : option EmergencyStatus :=
  e_status <$> emergencies st !! id.

(** The requests that take an assigned emergency to the hospital door, and
    the one that completes it. *)
Definition request_status (req_user : User) (id : oid) (s : EmergencyStatus)
    (now : Z) : Request :=
  UpdateStatus req_user id (Some (status_name s)) None now.

Definition advance (req_user : User) (id : oid) (now : Z) : list Request :=
  [ request_status req_user id en_route now;
    request_status req_user id arrived_at_patient now;
    request_status req_user id transporting now;
    request_status req_user id arrived_at_hospital now ].

Definition complete (req_user : User) (id : oid) (now : Z) : Request :=
  request_status req_user id completed now.

(** The scenario after emergency ["e1"] was assigned ambulance ["a1"] and
    hospital ["h1"] by the administrator. *)
Definition scenario_assigned : Store :=
  serve (scenario pending)
    (Assign admin_r "e1" (Some "a1") (Some "h1") None 1).

(** ... and after it went through its whole life. *)
Definition scenario_completed : Store :=
  run (advance admin_r "e1" 2 ++ [complete admin_r "e1" 3]) scenario_assigned.

(** The scenario when the ambulance has reached the hospital. *)
Definition scenario_at_hospital : Store :=
  run (advance admin_r "e1" 2) scenario_assigned.

Definition emergency_at (id : oid) (st : Store) : Emergency :=
  default (sample_emergency pending) (emergencies st !! id).

(** A completed payment of 100 for the emergency of the scenario. *)
Definition sample_payment : Payment :=
  mkPayment "e1" "u1" 100 pay_completed None None None.

Definition scenario_paid : Store :=
  set_payments (insert "p1" sample_payment) scenario_completed.

Definition payment_status_at (id : oid) (st : Store) : option PaymentStatus :=
  p_status <$> payments st !! id.

(** Lower-casing of ASCII letters, to run the lookup on sample data. *)
Definition lower_ascii (c : ascii) : ascii :=
  let n := nat_of_ascii c in
  if (65 <=? n)%nat && (n <=? 90)%nat then ascii_of_nat (n + 32) else c.

Fixpoint ascii_toLowerCase (s : string) : string :=
  match s with
  | EmptyString => EmptyString
  | String c s' => String (lower_ascii c) (ascii_toLowerCase s')
  end.

(** The lookup scenario of the specification: the store yields 3 of the 5
    requested hospitals; the provider reports four places, one of which is
    a stored hospital under another capitalisation. *)
Definition sample_near (name : string) : NearHospital :=
  mkNearHospital name "+9180" (mkCapacity 10 10).

Definition sample_place (name : string) : Place :=
  mkPlace name "MG Road" (mkCoordinates 12 77) None None None ("place-" +:+ name).

Definition sample_findNearest : Coordinates → Z → Z → list NearHospital :=
  λ _ _ limit,
    take (Z.to_nat limit)
      [sample_near "City Hospital"; sample_near "St. Mary";
       sample_near "Apollo"].

Definition sample_provider : Coordinates → Z → string + list Place :=
  λ _ _, inr [sample_place "Fortis"; sample_place "CITY HOSPITAL";
              sample_place "Manipal"; sample_place "Sparsh"].

Definition failing_provider : Coordinates → Z → string + list Place :=
  λ _ _, inl "Nearby search failed: OVER_QUERY_LIMIT".

Definition entry_name (x : NearbyEntry) : string :=
  match x with
  | Internal h => nh_name h
  | External g => gh_name g
  end.

(** What one request can do to a hospital document: nothing, take a unit
    of capacity, or give one back. *)
Inductive capacity_step (h : Hospital) : Hospital → Prop :=
  | step_same : capacity_step h h
  | step_taken : capacity_step h (taken h)
  | step_restored : capacity_step h (restored h).

(** ** Further invariants of the lifecycle *)

(** An ambulance is busy exactly when it has an active emergency. *)
Definition ambulance_ok (a : Ambulance) : Prop :=
  a_status a = busy ↔ activeEmergency a ≠ None.

(** What one request can do to an ambulance document: nothing, dispatch it
    to an emergency, or release it. *)
Inductive ambulance_step (a : Ambulance) : Ambulance → Prop :=
  | amb_same : ambulance_step a a
  | amb_dispatched id : ambulance_step a (dispatched id a)
  | amb_released : ambulance_step a (released a).

(** What one request can do to an emergency document: its patient and
    requester stay, its timeline only grows at the end. *)
Definition emergency_step (e e' : Emergency) : Prop :=
  patient e' = patient e ∧ requestedBy e' = requestedBy e ∧
  timeline e `prefix_of` timeline e'.

(** Feedback requests of one caller on one emergency, one rating after the
    other. *)
Definition submit (req_user : User) (id : oid) (now : Z) (st : Store)
    (rating : Q) : Store :=
  (post_feedback req_user id (Some rating) None now st).1.

Definition feedback_run (req_user : User) (id : oid) (now : Z)
    (ratings : list Q) (st : Store) : Store :=
  fold_left (submit req_user id now) ratings st.

Definition rating_in_range (q : Q) : Prop := (1 <= q)%Q ∧ (q <= 5)%Q.

(** The payment a successful refund of [a] saves. *)
Definition refunded_payment (p : Payment) (a : Q) (reason : option string)
    (now : Z) : Payment :=
  mkPayment (p_emergency p) (p_patient p) (p_amount p)
    (if Qeq_bool a (p_amount p) then pay_refunded else pay_completed)
    (Some (mkRefund a (default "Customer request" (given reason)) now))
    (p_transactionId p) (p_receiptUrl p).

(** ** Further routes

    The remaining handlers of the hospital, emergency and payment routers
    that work on the documents modelled above.  Their failures carry the
    HTTP status and the message of the thrown error; for an error raised by
    the runtime or by Mongoose (a [TypeError], a rejected validation) the
    text is not modelled and a placeholder names the kind. *)

Record HttpError := mkHttpError { http_status : Z; http_message : string }.

Inductive outcome (A : Type) :=
  | Sent (a : A)
  | Failed (e : HttpError).
Arguments Sent {A} a.
Arguments Failed {A} e.

Definition route (A : Type) : Type := Store → Store * outcome A.

#[global] Instance route_ret : MRet route :=
  λ A a st, (st, Sent a).

#[global] Instance route_bind : MBind route :=
  λ A B f m st,
    match m st with
    | (st', Sent a) => f a st'
    | (st', Failed e) => (st', Failed e)
    end.

Definition fail {A} (code : Z) (msg : string) : route A :=
  λ st, (st, Failed (mkHttpError code msg)).
Definition ask {A} (f : Store → A) : route A := λ st, (st, Sent (f st)).
Definition update (f : Store → Store) : route unit := λ st, (f st, Sent tt).

Definition orFail {A} (o : option A) (code : Z) (msg : string) : route A :=
  match o with
  | Some a => mret a
  | None => fail code msg
  end.

Definition failIf (c : bool) (code : Z) (msg : string) : route unit :=
  if c then fail code msg else mret tt.

Fixpoint forEach {A} (l : list A) (f : A → route unit) : route unit :=
  match l with
  | [] => mret tt
  | x :: l' => _ ← f x; forEach l' f
  end.

Definition sent {A} (r : Store * outcome A) : Prop :=
  match r.2 with
  | Sent _ => True
  | Failed _ => False
  end.

Definition failed_with {A} (code : Z) (r : Store * outcome A) : Prop :=
  match r.2 with
  | Sent _ => False
  | Failed e => http_status e = code
  end.

Definition set_users (f : gmap oid User → gmap oid User) (st : Store) : Store :=
  mkStore (f (users st)) (ambulances st) (hospitals st) (emergencies st)
    (payments st).

Definition with_role (r : Role) (u : User) : User :=
  mkUser (u_id u) (u_name u) (u_phone u) r.

Definition with_capacity (c : Capacity) (h : Hospital) : Hospital :=
  mkHospital (h_name h) (administrators h) c (h_rating h).

Definition with_administrators (l : list oid) (h : Hospital) : Hospital :=
  mkHospital (h_name h) l (emergencyCapacity h) (h_rating h).

(** [req.user.role === 'hospital_admin' &&
     hospital.administrators.some(admin => admin == req.user._id)]. *)
Definition administers (req_user : User) (h : Hospital) : bool :=
  bool_decide (u_role req_user = hospital_admin) &&
  bool_decide (u_id req_user ∈ administrators h).

(** *** PUT /api/hospitals/:id/capacity *)

Definition put_capacity (req_user : User) (id : oid)
    (req_total req_available : option Z) : route Capacity :=
  _ ← failIf (bool_decide (req_total = None) &&
              bool_decide (req_available = None))
        400 "Total or available capacity must be provided";
  found ← ask (λ st, hospitals st !! id);
  hospital ← orFail found 404 "Hospital not found";
  let isAdmin := bool_decide (u_role req_user = admin) in
  let isHospitalAdmin := administers req_user hospital in
  _ ← failIf (negb isAdmin && negb isHospitalAdmin)
        403 "Not authorized to update hospital capacity";
  let new_total := default (total (emergencyCapacity hospital)) req_total in
  let new_available :=
    default (cap_available (emergencyCapacity hospital)) req_available in
  (* ensure available doesn't exceed total *)
  let new_available :=
    if bool_decide (new_total < new_available) then new_total
    else new_available in
  let capacity := mkCapacity new_total new_available in
  _ ← update (set_hospitals (insert id (with_capacity capacity hospital)));
  mret capacity.

(** *** DELETE /api/hospitals/:id and PUT /api/hospitals/:id *)

(** [Hospital.countDocuments({ _id: { $ne: hid }, administrators: adminId })]. *)
Definition otherHospitals (hid adminId : oid) (st : Store) : nat :=
  size (filter (λ kv : oid * Hospital,
                  kv.1 ≠ hid ∧ adminId ∈ administrators kv.2)
          (hospitals st)).

(** One round of the demotion loop:
    [if (otherHospitals === 0) User.findByIdAndUpdate(adminId, { role: 'user' })]. *)
Definition demote_if_orphan (hid adminId : oid) : route unit :=
  n ← ask (otherHospitals hid adminId);
  if bool_decide (n = 0%nat)
  then update (set_users (alter (with_role user) adminId))
  else mret tt.

(** [User.updateMany({ _id: { $in: ids } }, { role })]. *)
Definition updateMany_role (ids : list oid) (r : Role)
    (m : gmap oid User) : gmap oid User :=
  map_imap (λ uid u, Some (if bool_decide (uid ∈ ids) then with_role r u else u)) m.

Definition delete_hospital (req_user : User) (id : oid) : route unit :=
  (* the [admin] middleware *)
  _ ← failIf (negb (bool_decide (u_role req_user = admin)))
        403 "Not authorized as an admin";
  found ← ask (λ st, hospitals st !! id);
  hospital ← orFail found 404 "Hospital not found";
  _ ← forEach (administrators hospital) (demote_if_orphan id);
  update (set_hospitals (delete id)).

(** The body of a hospital update: the list under its top-level key
    [administrators], when it has one, and what the other keys of the body
    (update operators and dotted paths included) make of the stored
    document, [None] when the update is rejected (by its validators, or
    because two keys are in conflict). *)
Record HospitalUpdate := mkHospitalUpdate {
  upd_administrators : option (list oid);
  upd_rest : Hospital → option Hospital
}.

(** [User.find({ _id: { $in: ids } }).length]. *)
Definition users_among (ids : list oid) (st : Store) : nat :=
  size (filter (λ kv : oid * User, kv.1 ∈ ids) (users st)).

Definition put_hospital (req_user : User) (id : oid) (body : HospitalUpdate)
    : route (option Hospital) :=
  found ← ask (λ st, hospitals st !! id);
  hospital ← orFail found 404 "Hospital not found";
  let isAdmin := bool_decide (u_role req_user = admin) in
  let isHospitalAdmin := administers req_user hospital in
  _ ← failIf (negb isAdmin && negb isHospitalAdmin)
        403 "Not authorized to update hospital";
  _ ← match upd_administrators body with
      | Some admins =>
          _ ← failIf (negb isAdmin)
                403 "Only admin can update hospital administrators";
          adminExists ← ask (users_among admins);
          _ ← failIf (negb (bool_decide (adminExists = length admins)))
                400 "One or more administrators not found";
          let removedAdmins :=
            filter (λ a, a ∉ admins) (administrators hospital) in
          _ ← forEach removedAdmins (demote_if_orphan id);
          let newAdmins :=
            filter (λ a, a ∉ administrators hospital) admins in
          update (set_users (updateMany_role newAdmins hospital_admin))
      | None => mret tt
      end;
  (* Hospital.findByIdAndUpdate(id, req.body, { runValidators: true }) *)
  current ← ask (λ st, hospitals st !! id);
  match current with
  | Some h =>
      updated ← orFail (upd_rest body h) 500 "ValidationError";
      let updated :=
        match upd_administrators body with
        | Some admins => with_administrators admins updated
        | None => updated
        end in
      _ ← update (set_hospitals (insert id updated));
      mret (Some updated)
  | None => mret None
  end.

(** Every user whose role is [hospital_admin] administers some hospital. *)
Definition admins_backed (st : Store) : Prop :=
  ∀ uid u, users st !! uid = Some u → u_role u = hospital_admin →
    ∃ hid h, hospitals st !! hid = Some h ∧ uid ∈ administrators h.

(** *** GET /api/emergencies/:id *)

Definition get_emergency (req_user : User) (id : oid) : route Emergency :=
  found ← ask (λ st, emergencies st !! id);
  emergency ← orFail found 404 "Emergency not found";
  (* the populated references *)
  populated_patient ← ask (λ st, users st !! patient emergency);
  populated_requester ← ask (λ st, users st !! requestedBy emergency);
  populated_ambulance ← ask (λ st, e_ambulance emergency ≫= (ambulances st !!.));
  populated_driver ←
    ask (λ st, match populated_ambulance with
               | Some a => a_driver a ≫= (users st !!.)
               | None => None
               end);
  populated_hospital ← ask (λ st, e_hospital emergency ≫= (hospitals st !!.));
  let isAdmin := bool_decide (u_role req_user = admin) in
  (* emergency.patient._id and emergency.requestedBy._id *)
  _ ← orFail populated_patient 500 "TypeError";
  let isPatient := bool_decide (patient emergency = u_id req_user) in
  _ ← orFail populated_requester 500 "TypeError";
  let isRequester := bool_decide (requestedBy emergency = u_id req_user) in
  let isDriver :=
    match populated_ambulance, populated_driver with
    | Some a, Some _ => bool_decide (a_driver a = Some (u_id req_user))
    | _, _ => false
    end in
  let isHospitalAdmin :=
    match populated_hospital with
    | Some h => administers req_user h
    | None => false
    end in
  _ ← failIf (negb isAdmin && negb isPatient && negb isRequester &&
              negb isDriver && negb isHospitalAdmin)
        403 "Not authorized to access this emergency";
  mret emergency.

(** *** PUT /api/payments/:id/status *)

Definition validPaymentStatuses : list (string * PaymentStatus) :=
  [ ("pending", pay_pending); ("processing", pay_processing);
    ("completed", pay_completed); ("refunded", pay_refunded);
    ("failed", pay_failed); ("cancelled", pay_cancelled) ].

Definition payment_status_name (s : PaymentStatus) : string :=
  match s with
  | pay_pending => "pending"
  | pay_processing => "processing"
  | pay_completed => "completed"
  | pay_refunded => "refunded"
  | pay_failed => "failed"
  | pay_cancelled => "cancelled"
  end.

(** The [payment.status] enum of the Emergency schema. *)
Definition emergencyPaymentStatuses : list (string * EmergencyPaymentStatus) :=
  [ ("pending", ep_pending); ("paid", ep_paid); ("free", ep_free);
    ("insurance_submitted", ep_insurance_submitted);
    ("hospital_covered", ep_hospital_covered) ].

Definition with_payment (pay : EmergencyPayment) (e : Emergency) : Emergency :=
  mkEmergency (patient e) (requestedBy e) (e_status e) (e_ambulance e)
    (e_hospital e) (e_route e) (timeline e) (feedback e) pay.

(** [x || y] on request strings. *)
Definition or_else (x y : option string) : option string :=
  match given x with
  | Some t => Some t
  | None => y
  end.

(** The Payment schema declares [transactionId] unique (and sparse): the
    index rejects a save that gives a payment the transaction id of another
    one. *)
Definition transactionId_free (id : oid) (t : string) (st : Store) : Prop :=
  map_Forall (λ id' p', id' = id ∨ p_transactionId p' ≠ Some t) (payments st).

#[global] Instance transactionId_free_dec id t st :
  Decision (transactionId_free id t st).
Proof. unfold transactionId_free. apply _. Defined.

(** The payment as the handler holds it before [payment.save()]. *)
Definition updated_payment (id : oid) (payment : Payment)
    (status : PaymentStatus) (transactionId : option string) : Payment :=
  mkPayment (p_emergency payment) (p_patient payment) (p_amount payment)
    status (p_refund payment)
    (or_else transactionId (p_transactionId payment))
    (if bool_decide (status = pay_completed) &&
        negb (bool_decide (is_Some (given (p_receiptUrl payment))))
     then Some ("https://example.com/receipts/" +:+ id)
     else p_receiptUrl payment).

Definition put_payment_status (req_user : User) (id : oid)
    (status transactionId : option string) : route Payment :=
  (* the [admin] middleware *)
  _ ← failIf (negb (bool_decide (u_role req_user = admin)))
        403 "Not authorized as an admin";
  name ← orFail (given status) 400 "Status is required";
  status ← orFail (assoc name validPaymentStatuses) 400 "Invalid status";
  found ← ask (λ st, payments st !! id);
  payment ← orFail found 404 "Payment not found";
  let payment' := updated_payment id payment status transactionId in
  (* payment.save(), under the unique index on transactionId *)
  free ← ask (λ st, match given transactionId with
                    | Some t => bool_decide (transactionId_free id t st)
                    | None => true
                    end);
  _ ← failIf (negb free) 500 "MongoServerError";
  _ ← update (set_payments (insert id payment'));
  (* the status and the transaction id are copied to the emergency, whose
     save validates payment.status against its own enum *)
  emergency ← ask (λ st, emergencies st !! p_emergency payment);
  _ ← match emergency with
      | Some e =>
          ep ← orFail (assoc name emergencyPaymentStatuses)
                 500 "ValidationError";
          update (set_emergencies
                    (insert (p_emergency payment)
                       (with_payment
                          (mkEmergencyPayment ep
                             (or_else transactionId
                                (ep_transactionId (e_payment e))))
                          e)))
      | None => mret tt
      end;
  mret payment'.

(** Two hospitals and their administrators: ["ha"] administers ["h1"]
    only, ["hb"] administers both. *)
Definition admin_a : User := mkUser "ha" "Anil" "+915" hospital_admin.
Definition admin_b : User := mkUser "hb" "Bina" "+916" hospital_admin.

Definition scenario_admins : Store :=
  mkStore
    (<["ha":=admin_a]> (<["hb":=admin_b]> sample_users))
    (<["a1":=sample_ambulance]> ∅)
    (<["h1":=with_administrators ["ha"; "hb"] sample_hospital]>
       (<["h2":=with_administrators ["hb"] sample_hospital]> ∅))
    (<["e1":=sample_emergency pending]> ∅)
    ∅.

(** *** The hospital router

    Express tries the routes of a router in the order in which they were
    registered and runs the first one whose method and path pattern match
    the request.  A path is given by its segments below the mount point
    [/api/hospitals]; a literal segment matches without regard to case, a
    parameter matches any non-empty segment. *)

Inductive Method := GET | POST | PUT | DELETE.

#[global] Instance Method_eq_dec : EqDecision Method.
Proof. solve_decision. Defined.

Inductive Segment :=
  | Literal (s : string)
  | Param (name : string).

Inductive HospitalRoute :=
  | CreateHospital | ListHospitals | GetHospital | UpdateHospital
  | DeleteHospital | NearbyHospitals | UpdateCapacity.

#[global] Instance HospitalRoute_eq_dec : EqDecision HospitalRoute.
Proof. solve_decision. Defined.

(** The routes of routes/hospital.js, in the order of their registration. *)
Definition hospital_routes : list (Method * list Segment * HospitalRoute) :=
  [ (POST, [], CreateHospital);
    (GET, [], ListHospitals);
    (GET, [Param "id"], GetHospital);
    (PUT, [Param "id"], UpdateHospital);
    (DELETE, [Param "id"], DeleteHospital);
    (GET, [Literal "nearby"], NearbyHospitals);
    (PUT, [Param "id"; Literal "capacity"], UpdateCapacity) ].

Fixpoint match_path (pattern : list Segment) (path : list string)
    : option (list (string * string)) :=
  match pattern, path with
  | [], [] => Some []
  | Literal s :: pattern', x :: path' =>
      if decide (ascii_toLowerCase x = ascii_toLowerCase s)
      then match_path pattern' path'
      else None
  | Param name :: pattern', x :: path' =>
      if decide (x = EmptyString) then None
      else
        match match_path pattern' path' with
        | Some params => Some ((name, x) :: params)
        | None => None
        end
  | _, _ => None
  end.

Fixpoint dispatch {R} (routes : list (Method * list Segment * R))
    (m : Method) (path : list string) : option (R * list (string * string)) :=
  match routes with
  | [] => None
  | (m', pattern, r) :: routes' =>
      match (if decide (m = m') then match_path pattern path else None) with
      | Some params => Some (r, params)
      | None => dispatch routes' m path
      end
  end.

Inductive HospitalAnswer :=
  | HospitalDoc (h : Hospital)
  | NearbyList (r : NearbyResponse).

(** A thrown error as the error handler reports it. *)
Definition reported {A B} (f : A → B) (r : result A) : route B :=
  match r with
  | Ok a => mret (f a)
  | Throw e => fail (statusCode e) (message e)
  end.

Section HospitalRouter.
(** Mongoose's cast of a request parameter to an [ObjectId], and the
    [status === 'active'] of a stored hospital, a field that the record of
    this model does not carry. *)
Variable castObjectId : string → option oid.
Variable active : oid → bool.
Variable findNearest : Coordinates → Z → Z → list NearHospital.
Variable getNearbyHospitals : Coordinates → Z → string + list Place.
Variable toLowerCase : string → string.

(** GET /api/hospitals/:id.  The route has no authentication middleware,
    so [req.user] is never set and only active hospitals are shown. *)
Definition get_hospital (id : string) : route Hospital :=
  (* Hospital.findById(req.params.id) casts the id first *)
  id ← orFail (castObjectId id) 500 "CastError";
  found ← ask (λ st, hospitals st !! id);
  hospital ← orFail found 404 "Hospital not found";
  _ ← failIf (negb (active id)) 404 "Hospital not found";
  mret hospital.

(** The answer to [GET /api/hospitals/<segment>]: the handler of the first
    matching route, and the [notFound] middleware when there is none. *)
Definition get_hospitals_segment (segment : string) (qlat qlng : option Q)
    (radius limit : option Z) : route HospitalAnswer :=
  match dispatch hospital_routes GET [segment] with
  | Some (GetHospital, params) =>
      hospital ← get_hospital (default EmptyString (assoc "id" params));
      mret (HospitalDoc hospital)
  | Some (NearbyHospitals, _) =>
      reported NearbyList
        (get_nearby findNearest getNearbyHospitals toLowerCase
           qlat qlng radius limit)
  | _ => fail 404 "Not Found"
  end.
End HospitalRouter.

(** A cast that accepts the 24 hexadecimal digits of an [ObjectId], to run
    the router on sample requests. *)
Definition is_hex_digit (c : ascii) : bool :=
  let n := nat_of_ascii c in
  ((48 <=? n)%nat && (n <=? 57)%nat) || ((65 <=? n)%nat && (n <=? 70)%nat) ||
  ((97 <=? n)%nat && (n <=? 102)%nat).

Fixpoint all_hex (s : string) : bool :=
  match s with
  | EmptyString => true
  | String c s' => is_hex_digit c && all_hex s'
  end.

Definition hex24 (s : string) : option oid :=
  if (String.length s =? 24)%nat && all_hex s then Some s else None.

(** *** GET /api/emergencies *)

Record ListQuery := mkListQuery {
  q_status : option string;
  q_startDate : option Z;
  q_endDate : option Z;
  q_page : option Z;
  q_limit : option Z
}.

(** The answer of the listing; [totalPages], a rounded-up quotient of
    JavaScript numbers, is left out. *)
Record ListResponse := mkListResponse {
  lr_count : nat;
  lr_total : nat;
  lr_currentPage : Z;
  lr_data : list (oid * Emergency)
}.

(** The largest integer up to which JavaScript numbers count exactly. *)
Definition MAX_SAFE_INTEGER : Z := 2 ^ 53 - 1.

(** [parseInt(x) || d], with [o] the integer that [parseInt] reads: a
    missing, unreadable or zero value gives [d]. *)
Definition parsed_or (o : option Z) (d : Z) : Z :=
  match o with
  | Some n => if bool_decide (n = 0) then d else n
  | None => d
  end.

(** The part of the filter that the role of the caller adds. *)
Definition role_scope (req_user : User) (st : Store) (e : Emergency) : bool :=
  match u_role req_user with
  | user =>
      bool_decide (patient e = u_id req_user) ||
      bool_decide (requestedBy e = u_id req_user)
  | driver =>
      match e_ambulance e with
      | Some aid =>
          match ambulances st !! aid with
          | Some a => bool_decide (a_driver a = Some (u_id req_user))
          | None => false
          end
      | None => false
      end
  | hospital_admin =>
      match e_hospital e with
      | Some hid =>
          match hospitals st !! hid with
          | Some h => bool_decide (u_id req_user ∈ administrators h)
          | None => false
          end
      | None => false
      end
  | admin => true
  end.

Section Listing.
(** The creation time that Mongoose keeps for every emergency
    ([timestamps: true]); the listing filters and sorts by it. *)
Variable createdAt : oid → Z.

Definition list_filter (req_user : User) (q : ListQuery) (st : Store)
    (kv : oid * Emergency) : bool :=
  role_scope req_user st kv.2 &&
  match given (q_status q) with
  | Some s => bool_decide (status_name (e_status kv.2) = s)
  | None => true
  end &&
  match q_startDate q, q_endDate q with
  | Some a, Some b =>
      bool_decide (a ≤ createdAt kv.1) && bool_decide (createdAt kv.1 ≤ b)
  | _, _ => true
  end.

(** [Emergency.find(filter).sort({ createdAt: -1 })]. *)
Definition find_sorted (req_user : User) (q : ListQuery) (st : Store)
    : list (oid * Emergency) :=
  @merge_sort (oid * Emergency) (λ x y, createdAt y.1 ≤ createdAt x.1)
    (λ x y, decide (createdAt y.1 ≤ createdAt x.1))
    (filter (λ kv, list_filter req_user q st kv = true)
       (map_to_list (emergencies st))).

(** What the database makes of a [skip] and a [limit] that are not both
    in the range the handler is written for (a negative or inexact number):
    an error, or the numbers of documents it skips and returns.  The source
    does not say; the properties below hold for every such behaviour. *)
Variable unusual_window : Z → Z → option (nat * nat).

(** [.skip(skip).limit(limit)] *)
Definition window (skip limit : Z) : option (nat * nat) :=
  if bool_decide (0 ≤ skip ≤ MAX_SAFE_INTEGER) &&
     bool_decide (1 ≤ limit ≤ MAX_SAFE_INTEGER)
  then Some (Z.to_nat skip, Z.to_nat limit)
  else unusual_window skip limit.

(** The documents are returned as stored (the populated fields are left
    out), the dates of the query are taken as already read. *)
Definition get_emergencies (req_user : User) (q : ListQuery)
    : route ListResponse :=
  let page := parsed_or (q_page q) 1 in
  let limit := parsed_or (q_limit q) 10 in
  let skip := (page - 1) * limit in
  docs ← ask (find_sorted req_user q);
  w ← orFail (window skip limit) 500 "MongoServerError";
  let emergencies := take w.2 (drop w.1 docs) in
  let total := length docs in
  mret (mkListResponse (length emergencies) total page emergencies).
End Listing.

(** ** Tactics *)

Ltac unfold_handler :=
  unfold mbind, handler_bind, mret, handler_ret, throw, gets, modify,
    orThrow, throwIf, populate, findByRef,
    User_findById, Ambulance_findById, Hospital_findById,
    Emergency_findById, Payment_findById,
    Emergency_save, Ambulance_save, Hospital_save, Payment_save,
    mbind, handler_bind, mret, handler_ret, throw, gets, modify in *.

Ltac bool_hyps :=
  repeat match goal with
    | H : negb _ = false |- _ => apply negb_false_iff in H
    | H : negb _ = true |- _ => apply negb_true_iff in H
    | H : bool_decide _ = true |- _ => apply bool_decide_eq_true in H
    | H : bool_decide _ = false |- _ => apply bool_decide_eq_false in H
    | H : _ && _ = true |- _ => apply andb_true_iff in H as [? ?]
    | H : _ || _ = false |- _ => apply orb_false_iff in H as [? ?]
    end.

Ltac bool_crush :=
  repeat match goal with
    | H : context [bool_decide _] |- _ => revert H
    end;
  repeat match goal with
    | |- context [bool_decide ?P] => destruct (bool_decide P)
    end;
  simpl; intros; try done; try congruence.

Ltac unfold_route :=
  unfold mbind, route_bind, mret, route_ret, fail, ask, update, orFail,
    failIf, mbind, route_bind, mret, route_ret, fail, ask, update in *.

(** * Properties *)

Lemma given_status_name (s : EmergencyStatus) :
  given (Some (status_name s)) = Some (status_name s).
Proof. by destruct s. Qed.

Lemma assoc_status_name (s : EmergencyStatus) :
  assoc (status_name s) validStatuses = Some s.
Proof. by destruct s. Qed.

Lemma put_status_name req_user id s notes now st :
  put_status req_user id (Some (status_name s)) notes now st =
  put_status_valid req_user id s notes now st.
Proof.
  unfold put_status. rewrite given_status_name.
  unfold mbind, handler_bind, orThrow, mret, handler_ret.
  by rewrite assoc_status_name.
Qed.

(** A request that the handler rejects before it parses a status leaves the
    store alone; otherwise it behaves as [put_status_valid]. *)
Lemma put_status_cases req_user id status notes now st :
  (∃ e, put_status req_user id status notes now st = (st, Throw e)) ∨
  (∃ s, put_status req_user id status notes now st =
        put_status_valid req_user id s notes now st).
Proof.
  unfold put_status, mbind, handler_bind, orThrow, mret, handler_ret, throw.
  destruct (given status) as [name|]; [|left; eauto].
  destruct (assoc name validStatuses) as [s|]; [right; eauto|left; eauto].
Qed.

(** *** The assign handler *)

Lemma put_assign_throw req_user id ambulanceId hospitalId routeResult now st st' e :
  put_assign req_user id ambulanceId hospitalId routeResult now st = (st', Throw e) →
  st' = st.
Proof.
  unfold put_assign. unfold_handler. intros H.
  repeat (case_match; simplify_eq/=); done.
Qed.

Lemma put_assign_ok req_user id ambulanceId hospitalId routeResult now st st' r :
  put_assign req_user id ambulanceId hospitalId routeResult now st = (st', Ok r) →
  ∃ aid e a,
    given ambulanceId = Some aid ∧ emergencies st !! id = Some e ∧
    ambulances st !! aid = Some a ∧
    authorized_to_assign req_user hospitalId st = true ∧
    a_status a = available ∧ has_driver a st = true ∧
    hospital_ready hospitalId st = true ∧
    st' = assign_effect req_user id e aid a hospitalId now st.
Proof.
  unfold put_assign. unfold_handler. intros H.
  destruct (given ambulanceId) as [aid|] eqn:Ha; [|done].
  destruct (emergencies st !! id) as [e|] eqn:He; [|done].
  unfold authorized_to_assign, has_driver, hospital_ready, assign_effect,
    assigned_emergency, dispatched, taken.
  destruct (bool_decide (u_role req_user = admin)) eqn:Hadm;
    destruct (is_hospital_admin_of req_user hospitalId st) eqn:Hha;
    simpl in H; try done.
  all: destruct (ambulances st !! aid) as [a|] eqn:Hamb; [|done].
  all: exists aid, e, a.
  all: repeat (case_match; simplify_eq/=); try done.
  all: bool_hyps; repeat split; try done.
  all: try (apply bool_decide_eq_true_2; first [done | lia]).
Qed.

Lemma cast_route_fails r : cast_route r = None.
Proof. done. Qed.

(** A request that passes every check of the handler: without a computed
    route the assignment is stored, with one the save of the emergency is
    rejected before anything is written. *)
Lemma put_assign_passes req_user id ambulanceId hospitalId routeResult now st aid e a :
  given ambulanceId = Some aid → emergencies st !! id = Some e →
  ambulances st !! aid = Some a →
  authorized_to_assign req_user hospitalId st = true →
  a_status a = available → has_driver a st = true →
  hospital_ready hospitalId st = true →
  match routeResult with
  | None =>
      ∃ r, put_assign req_user id ambulanceId hospitalId None now st =
           (assign_effect req_user id e aid a hospitalId now st, Ok r)
  | Some rr =>
      put_assign req_user id ambulanceId hospitalId (Some rr) now st =
        (st, Throw EmergencyValidationFailed)
  end.
Proof.
  unfold authorized_to_assign, has_driver, hospital_ready.
  intros Ha He Hamb Hauth Hav Hdr Hh.
  destruct routeResult as [rr|].
  all: unfold put_assign; unfold_handler.
  all: rewrite Ha; simpl; rewrite He; simpl.
  all: apply orb_true_iff in Hauth.
  all: assert (negb (bool_decide (u_role req_user = admin)) &&
          negb (is_hospital_admin_of req_user hospitalId st) = false) as ->
    by (destruct Hauth as [->| ->]; simpl; [done|]; by rewrite andb_false_r).
  all: simpl; rewrite Hamb; simpl; rewrite Hav; simpl.
  all: unfold assign_effect, assigned_emergency, dispatched, taken.
  all: destruct (a_driver a) as [d|] eqn:Hd; simpl in *; [|done].
  all: rewrite Hdr; simpl.
  all: destruct (given hospitalId) as [hid|]; simpl.
  all: try (destruct (hospitals st !! hid) as [h|]; [|done]; simpl;
            apply bool_decide_eq_true in Hh;
            rewrite bool_decide_eq_false_2 by lia; simpl).
  all: eauto.
Qed.

Lemma put_assign_succeeds req_user id ambulanceId hospitalId now st aid e a :
  given ambulanceId = Some aid → emergencies st !! id = Some e →
  ambulances st !! aid = Some a →
  authorized_to_assign req_user hospitalId st = true →
  a_status a = available → has_driver a st = true →
  hospital_ready hospitalId st = true →
  ∃ r, put_assign req_user id ambulanceId hospitalId None now st =
       (assign_effect req_user id e aid a hospitalId now st, Ok r).
Proof.
  intros Ha He Hamb Hauth Hav Hdr Hh.
  exact (put_assign_passes req_user id ambulanceId hospitalId None now st
           aid e a Ha He Hamb Hauth Hav Hdr Hh).
Qed.

(** A computed route never gets an assignment through. *)
Lemma put_assign_ok_route req_user id ambulanceId hospitalId routeResult now st st' r :
  put_assign req_user id ambulanceId hospitalId routeResult now st = (st', Ok r) →
  routeResult = None.
Proof.
  destruct routeResult as [rr|]; [|done].
  unfold put_assign. unfold_handler. intros H.
  repeat (case_match; simplify_eq/=); done.
Qed.

(** *** The status handler *)

Lemma put_status_valid_throw req_user id s notes now st st' e :
  put_status_valid req_user id s notes now st = (st', Throw e) →
  st' = st.
Proof.
  unfold put_status_valid, updateStatus. unfold_handler. intros H.
  repeat (case_match; simplify_eq/=); done.
Qed.

Lemma put_status_throw req_user id status notes now st st' e :
  put_status req_user id status notes now st = (st', Throw e) →
  st' = st.
Proof.
  destruct (put_status_cases req_user id status notes now st) as [[e' ->]|[s ->]].
  - by intros [= <- _].
  - apply put_status_valid_throw.
Qed.

Lemma put_status_valid_ok req_user id s notes now st st' r :
  put_status_valid req_user id s notes now st = (st', Ok r) →
  ∃ e, emergencies st !! id = Some e ∧
       is_Some (users st !! patient e) ∧
       authorized_for req_user e s st = true ∧
       (guarded s = true → transition_table (e_status e) s = true) ∧
       sr_status r = s ∧
       st' = status_effect id e s notes now st.
Proof.
  unfold put_status_valid, updateStatus. unfold_handler. intros H.
  destruct (emergencies st !! id) as [e|] eqn:He; [|done].
  exists e. split; [done|].
  unfold status_effect, release_ambulance, restore_capacity, authorized_for,
    is_driver_of.
  destruct s; simpl in *.
  all: repeat (case_match; simplify_eq/=); try done.
  all: split; [by eauto|].
  all: split; [by bool_crush|].
  all: split; [|done].
  all: intros Hg; vm_compute in Hg; try done; clear Hg.
  all: destruct (e_status e);
    repeat match goal with
      | H : negb (bool_decide _) = false |- _ => vm_compute in H
      | H : bool_decide _ = false |- _ => vm_compute in H
      end; try done; by vm_compute.
Qed.

Lemma put_status_valid_succeeds req_user id s notes now st e :
  emergencies st !! id = Some e →
  is_Some (users st !! patient e) →
  authorized_for req_user e s st = true →
  (guarded s = true → transition_table (e_status e) s = true) →
  ∃ r, put_status_valid req_user id s notes now st =
         (status_effect id e s notes now st, Ok r) ∧ sr_status r = s.
Proof.
  intros He [p Hp] Hauth Htab.
  unfold put_status_valid, updateStatus. unfold_handler.
  rewrite He. simpl.
  unfold status_effect, release_ambulance, restore_capacity, authorized_for,
    is_driver_of in *.
  destruct s; simpl in *.
  all: try (specialize (Htab eq_refl)).
  all: repeat (case_match; simplify_eq/=); eauto.
  all: exfalso.
  all: first
    [ by bool_crush
    | destruct (e_status e);
      repeat match goal with
        | H : negb (bool_decide _) = true |- _ => vm_compute in H
        | H : bool_decide _ = true |- _ => vm_compute in H
        end; done ].
Qed.

(** *** Frames of the effects *)

Lemma release_ambulance_frame e st :
  users (release_ambulance e st) = users st ∧
  hospitals (release_ambulance e st) = hospitals st ∧
  emergencies (release_ambulance e st) = emergencies st ∧
  payments (release_ambulance e st) = payments st.
Proof. unfold release_ambulance. by repeat case_match. Qed.

Lemma restore_capacity_frame e st :
  users (restore_capacity e st) = users st ∧
  ambulances (restore_capacity e st) = ambulances st ∧
  emergencies (restore_capacity e st) = emergencies st ∧
  payments (restore_capacity e st) = payments st.
Proof. unfold restore_capacity. by repeat case_match. Qed.

Lemma status_effect_users id e s notes now st :
  users (status_effect id e s notes now st) = users st.
Proof.
  unfold status_effect, restore_capacity, release_ambulance.
  destruct s; simpl; repeat (case_match; simplify_eq/=); done.
Qed.

Lemma status_effect_emergencies id e s notes now st :
  emergencies (status_effect id e s notes now st) =
  <[id:=with_status e s (mkEntry (statusMap s) now (default EmptyString notes))]>
    (emergencies st).
Proof.
  unfold status_effect, restore_capacity, release_ambulance.
  destruct s; simpl; repeat (case_match; simplify_eq/=); done.
Qed.

Lemma status_effect_hospitals id e s notes now st :
  hospitals (status_effect id e s notes now st) =
  match s, e_hospital e with
  | completed, Some hid =>
      match hospitals st !! hid with
      | Some h => <[hid:=restored h]> (hospitals st)
      | None => hospitals st
      end
  | _, _ => hospitals st
  end.
Proof.
  unfold status_effect, restore_capacity, release_ambulance.
  destruct s; simpl; repeat (case_match; simplify_eq/=); done.
Qed.

Lemma status_effect_ambulances id e s notes now st :
  ambulances (status_effect id e s notes now st) =
  match e_ambulance e with
  | Some aid =>
      match ambulances st !! aid with
      | Some a =>
          if bool_decide (s = completed) || bool_decide (s = cancelled)
          then <[aid:=released a]> (ambulances st)
          else ambulances st
      | None => ambulances st
      end
  | None => ambulances st
  end.
Proof.
  unfold status_effect, restore_capacity, release_ambulance.
  destruct s; simpl; repeat (case_match; simplify_eq/=); done.
Qed.

Lemma assign_effect_hospitals req_user id e aid a hospitalId now st :
  hospitals (assign_effect req_user id e aid a hospitalId now st) =
  match given hospitalId with
  | Some hid =>
      match hospitals st !! hid with
      | Some h => <[hid:=taken h]> (hospitals st)
      | None => hospitals st
      end
  | None => hospitals st
  end.
Proof. unfold assign_effect. by repeat case_match. Qed.

Lemma assign_effect_users req_user id e aid a hospitalId now st :
  users (assign_effect req_user id e aid a hospitalId now st) =
  users st.
Proof. unfold assign_effect. by repeat case_match. Qed.

Lemma assign_effect_emergencies req_user id e aid a hospitalId now st :
  emergencies (assign_effect req_user id e aid a hospitalId now st) =
  <[id:=assigned_emergency req_user e aid a hospitalId now]>
    (emergencies st).
Proof. unfold assign_effect. by repeat case_match. Qed.

Lemma assign_effect_ambulances req_user id e aid a hospitalId now st :
  ambulances (assign_effect req_user id e aid a hospitalId now st) =
  <[aid:=dispatched id a]> (ambulances st).
Proof. unfold assign_effect. by repeat case_match. Qed.

(** *** One request, seen from a hospital *)

Lemma capacity_step_ok h h' :
  capacity_step h h' → capacity_ok h →
  capacity_ok h' ∧ total (emergencyCapacity h') = total (emergencyCapacity h).
Proof.
  unfold capacity_ok. intros [] ?; simpl; split; lia.
Qed.

Lemma insert_capacity_step (f : Hospital → Hospital) hid0 h0 (m : gmap oid Hospital) hid h :
  m !! hid0 = Some h0 → capacity_step h0 (f h0) →
  m !! hid = Some h →
  ∃ h', <[hid0:=f h0]> m !! hid = Some h' ∧ capacity_step h h'.
Proof.
  intros H0 Hstep Hh. destruct (decide (hid0 = hid)) as [->|Hne].
  - rewrite lookup_insert_eq. simplify_eq. eauto.
  - rewrite lookup_insert_ne by done. eauto using capacity_step.
Qed.

Lemma serve_capacity_step st r hid h :
  hospitals st !! hid = Some h →
  ∃ h', hospitals (serve st r) !! hid = Some h' ∧ capacity_step h h'.
Proof.
  intros Hh. destruct r as [u id aId hId rt now|u id status notes now]; simpl.
  - destruct (put_assign u id aId hId rt now st) as [st' [r|err]] eqn:Hrun.
    + apply put_assign_ok in Hrun as (aid & e & a & _ & _ & _ & _ & _ & _ & _ & ->).
      simpl. rewrite assign_effect_hospitals.
      destruct (given hId) as [hid0|]; [|eauto using capacity_step].
      destruct (hospitals st !! hid0) as [h0|] eqn:H0; [|eauto using capacity_step].
      eapply (insert_capacity_step taken); eauto using capacity_step.
    + apply put_assign_throw in Hrun as ->. eauto using capacity_step.
  - destruct (put_status u id status notes now st) as [st' [r|err]] eqn:Hrun.
    + destruct (put_status_cases u id status notes now st) as [[e' Heq]|[s Heq]];
        rewrite Heq in Hrun; [done|].
      apply put_status_valid_ok in Hrun as (e & _ & _ & _ & _ & _ & ->).
      simpl. rewrite status_effect_hospitals.
      destruct s; try by eauto using capacity_step.
      destruct (e_hospital e) as [hid0|]; [|eauto using capacity_step].
      destruct (hospitals st !! hid0) as [h0|] eqn:H0; [|eauto using capacity_step].
      eapply (insert_capacity_step restored); eauto using capacity_step.
    + apply put_status_throw in Hrun as ->. eauto using capacity_step.
Qed.

(** * The claims *)

Lemma succeeded_inv {A} (res : Store * result A) :
  succeeded res → ∃ r, res = (res.1, Ok r).
Proof. destruct res as [st [r|e]]; simpl; [eauto|done]. Qed.

Lemma failed_inv {A} (res : Store * result A) :
  failed res → ∃ e, res = (res.1, Throw e).
Proof. destruct res as [st [r|e]]; simpl; [done|eauto]. Qed.

(** C1 (the code departs from the claim).  The status handler checks the
    current status only for the requests [en_route], [arrived_at_patient],
    [transporting], [arrived_at_hospital], [completed] and [cancelled].  A
    request for [pending] or [assigned] is accepted from every status and
    from every authenticated caller: here a user who is neither patient,
    requester, driver nor administrator moves the completed emergency of the
    scenario back to [pending], and then to [assigned], although the
    transition table has neither edge. *)
Theorem status_update_reopens_completed_emergency :
  status_at "e1" scenario_completed = Some completed ∧
  transition_table completed pending = false ∧
  transition_table completed assigned = false ∧
  let reopened :=
    put_status stranger "e1" (Some "pending") None 4 scenario_completed in
  succeeded reopened ∧ status_at "e1" reopened.1 = Some pending ∧
  let reassigned :=
    put_status stranger "e1" (Some "assigned") None 5 scenario_completed in
  succeeded reassigned ∧ status_at "e1" reassigned.1 = Some assigned.
Proof. by vm_compute. Qed.

(** The same, for every store: a request for [pending] or [assigned] on an
    existing emergency (with an existing patient) succeeds from every
    current status and for every caller. *)
Lemma put_status_unguarded req_user id s notes now st e :
  emergencies st !! id = Some e →
  is_Some (users st !! patient e) →
  s = pending ∨ s = assigned →
  let res := put_status req_user id (Some (status_name s)) notes now st in
  succeeded res ∧ status_at id res.1 = Some s.
Proof.
  intros He Hp Hs res. unfold res. rewrite put_status_name.
  destruct (put_status_valid_succeeds req_user id s notes now st e)
    as (r & -> & _); try done.
  - by destruct Hs as [-> | ->].
  - by destruct Hs as [-> | ->].
  - split; [done|]. unfold status_at. simpl.
    by rewrite status_effect_emergencies, lookup_insert_eq.
Qed.

(** What the status handler does enforce: a successful request for one of
    the six checked statuses follows an edge of the table, and a rejected
    request leaves the whole store as it was. *)
Lemma put_status_follows_table req_user id s notes now st e :
  emergencies st !! id = Some e → guarded s = true →
  let res := put_status req_user id (Some (status_name s)) notes now st in
  (succeeded res → transition_table (e_status e) s = true) ∧
  (transition_table (e_status e) s = false → failed res ∧ res.1 = st).
Proof.
  intros He Hg res. subst res. rewrite put_status_name.
  destruct (put_status_valid req_user id s notes now st) as [st' [r|err]] eqn:Hrun.
  - apply put_status_valid_ok in Hrun as (e' & He' & _ & _ & Htab & _ & _).
    simplify_eq. rewrite (Htab Hg). by split.
  - apply put_status_valid_throw in Hrun as ->. by split.
Qed.

(** C2 (the code departs from the claim).  The assign handler never reads
    the status of the emergency.  After the emergency of the scenario was
    completed, which released its ambulance, the administrator assigns the
    same ambulance again: the request succeeds, the emergency is [assigned]
    once more, the ambulance is busy again and the hospital loses another
    unit of capacity. *)
Theorem assign_accepts_completed_emergency :
  status_at "e1" scenario_completed = Some completed ∧
  available_at "h1" scenario_completed = Some 1 ∧
  let again :=
    put_assign admin_r "e1" (Some "a1") (Some "h1") None 6 scenario_completed in
  succeeded again ∧
  status_at "e1" again.1 = Some assigned ∧
  a_status <$> ambulances again.1 !! "a1" = Some busy ∧
  available_at "h1" again.1 = Some 0.
Proof. by vm_compute. Qed.

(** C3.  When the ambulance named in an assign request exists but is not
    available, or has no driver, the request fails and the store (emergency,
    ambulance and hospital with its capacity) is exactly what it was; when
    the request got as far as the ambulance checks (a non-empty id, an
    existing emergency, an authorized caller) the failure is a Conflict. *)
Theorem assign_unavailable_ambulance_conflict
    req_user id aid hospitalId routeResult now st a :
  ambulances st !! aid = Some a →
  a_status a ≠ available ∨ has_driver a st = false →
  ∃ err,
    put_assign req_user id (Some aid) hospitalId routeResult now st =
      (st, Throw err) ∧
    (aid ≠ EmptyString → is_Some (emergencies st !! id) →
     authorized_to_assign req_user hospitalId st = true →
     err = (if decide (a_status a = available) then AmbulanceHasNoDriver
            else AmbulanceNotAvailable) ∧
     kind err = Conflict ∧ statusCode err = 400).
Proof.
  intros Hamb Hbad.
  destruct (put_assign req_user id (Some aid) hospitalId routeResult now st)
    as [st' [r|err]] eqn:Hrun.
  { apply put_assign_ok in Hrun as (aid' & e & a' & Hg & _ & Ha' & _ & Hav & Hdr & _).
    unfold given in Hg. case_decide; simplify_eq.
    destruct Hbad; congruence. }
  pose proof (put_assign_throw _ _ _ _ _ _ _ _ _ Hrun) as ->.
  exists err. split; [done|].
  intros Hne [e He] Hauth. revert Hrun.
  unfold put_assign, authorized_to_assign, has_driver in *. unfold_handler.
  unfold given. rewrite decide_False by done. simpl. rewrite He. simpl.
  apply orb_true_iff in Hauth.
  assert (negb (bool_decide (u_role req_user = admin)) &&
          negb (is_hospital_admin_of req_user hospitalId st) = false) as ->.
  { destruct Hauth as [->| ->]; simpl; [done|]. by rewrite andb_false_r. }
  simpl. rewrite Hamb. simpl.
  destruct (decide (a_status a = available)) as [Hav|Hav].
  - destruct Hbad as [?|Hdr]; [done|].
    rewrite bool_decide_eq_true_2 by done.
    destruct (a_driver a); simpl in *; [rewrite Hdr|]; simpl; by intros [= <-].
  - rewrite bool_decide_eq_false_2 by done.
    destruct (a_driver a); simpl; by intros [= <-].
Qed.

Lemma assign_unavailable_ambulance_conflict_witness :
  ∃ err,
    put_assign admin_r "e1" (Some "a1") None None 7 scenario_assigned =
      (scenario_assigned, Throw err) ∧
    ("a1" ≠ EmptyString → is_Some (emergencies scenario_assigned !! "e1") →
     authorized_to_assign admin_r None scenario_assigned = true →
     err = (if decide (a_status (dispatched "e1" sample_ambulance) = available)
            then AmbulanceHasNoDriver else AmbulanceNotAvailable) ∧
     kind err = Conflict ∧ statusCode err = 400).
Proof.
  apply (assign_unavailable_ambulance_conflict admin_r "e1" "a1" None None 7
           scenario_assigned (dispatched "e1" sample_ambulance)).
  - reflexivity.
  - left. discriminate.
Defined.

(** C4.  When emergency [E] has ambulance [A], a successful status update
    to [completed] or [cancelled] leaves [A] available with no active
    emergency (and otherwise as it was); for [completed], the hospital of
    [E] gets one unit of available capacity back, capped at its total. *)
Theorem completion_or_cancellation_releases
    req_user id s notes now st e aid a :
  s = completed ∨ s = cancelled →
  emergencies st !! id = Some e →
  e_ambulance e = Some aid →
  ambulances st !! aid = Some a →
  let res := put_status req_user id (Some (status_name s)) notes now st in
  succeeded res →
  (∃ a', ambulances res.1 !! aid = Some a' ∧
         a_status a' = available ∧ activeEmergency a' = None ∧
         a' = released a) ∧
  (s = completed → ∀ hid h,
     e_hospital e = Some hid → hospitals st !! hid = Some h →
     ∃ h', hospitals res.1 !! hid = Some h' ∧
           total (emergencyCapacity h') = total (emergencyCapacity h) ∧
           cap_available (emergencyCapacity h') =
             Z.min (total (emergencyCapacity h))
                   (cap_available (emergencyCapacity h) + 1)).
Proof.
  intros Hs He Hea Hamb res Hok. subst res.
  apply succeeded_inv in Hok as [r Hrun]. revert Hrun.
  rewrite put_status_name.
  destruct (put_status_valid req_user id s notes now st) as [st' res] eqn:Hrun.
  simpl. intros [= ->].
  apply put_status_valid_ok in Hrun as (e' & He' & _ & _ & _ & _ & ->).
  simplify_eq. split.
  - exists (released a). rewrite status_effect_ambulances, Hea, Hamb.
    destruct Hs as [-> | ->]; simpl; by rewrite lookup_insert_eq.
  - intros -> hid h Heh Hh. exists (restored h).
    rewrite status_effect_hospitals, Heh, Hh.
    by rewrite lookup_insert_eq.
Qed.

Lemma completion_or_cancellation_releases_witness :
  let st := scenario_at_hospital in
  let e := emergency_at "e1" st in
  let res := put_status admin_r "e1" (Some (status_name completed)) None 3 st in
  (∃ a', ambulances res.1 !! "a1" = Some a' ∧
         a_status a' = available ∧ activeEmergency a' = None ∧
         a' = released (dispatched "e1" sample_ambulance)) ∧
  (completed = completed → ∀ hid h,
     e_hospital e = Some hid → hospitals st !! hid = Some h →
     ∃ h', hospitals res.1 !! hid = Some h' ∧
           total (emergencyCapacity h') = total (emergencyCapacity h) ∧
           cap_available (emergencyCapacity h') =
             Z.min (total (emergencyCapacity h))
                   (cap_available (emergencyCapacity h) + 1)).
Proof.
  intros st e res.
  apply (completion_or_cancellation_releases admin_r "e1" completed None 3 st
           e "a1" (dispatched "e1" sample_ambulance)).
  - by left.
  - by vm_compute.
  - by vm_compute.
  - by vm_compute.
  - by vm_compute.
Defined.

(** C5.  A hospital whose capacity satisfies [0 <= available <= total]
    still exists and still satisfies it, with the same total, after any
    finite sequence of assign and status-update requests, whatever their
    arguments and whether they succeed or fail. *)
Theorem capacity_invariant rs st hid h :
  hospitals st !! hid = Some h →
  capacity_ok h →
  ∃ h', hospitals (run rs st) !! hid = Some h' ∧
        capacity_ok h' ∧
        total (emergencyCapacity h') = total (emergencyCapacity h).
Proof.
  revert st h. induction rs as [|r rs IH]; intros st h Hh Hok; simpl.
  - eauto.
  - destruct (serve_capacity_step st r hid h Hh) as (h1 & Hh1 & Hstep).
    destruct (capacity_step_ok h h1 Hstep Hok) as [Hok1 Htot].
    destruct (IH _ _ Hh1 Hok1) as (h' & Hh' & Hok' & Htot').
    exists h'. repeat split; try done; try apply Hok'. congruence.
Qed.

Lemma capacity_invariant_witness :
  ∃ h', hospitals
          (run (Assign admin_r "e1" (Some "a1") (Some "h1") None 1 ::
                advance admin_r "e1" 2 ++
                [complete admin_r "e1" 3; complete admin_r "e1" 4])
             (scenario pending)) !! "h1" = Some h' ∧
        capacity_ok h' ∧
        total (emergencyCapacity h') = total (emergencyCapacity sample_hospital).
Proof.
  apply (capacity_invariant _ (scenario pending) "h1" sample_hospital).
  - reflexivity.
  - unfold capacity_ok. simpl. lia.
Defined.

(** *** Requests of an administrator *)











(** C10.  A status update to [cancelled] never writes a hospital: the
    hospital collection after the request is the one before it, whether
    the request succeeds or not.  When it succeeds, the ambulance of the
    emergency is released.  So when the cancelled emergency had been
    assigned with a hospital, the unit of capacity that the assignment took
    (from [available] to [available - 1]) is not given back. *)
Theorem cancellation_keeps_hospital req_user id notes now st :
  let res := put_status req_user id (Some "cancelled") notes now st in
  hospitals res.1 = hospitals st ∧
  (succeeded res → ∀ e aid a,
     emergencies st !! id = Some e → e_ambulance e = Some aid →
     ambulances st !! aid = Some a →
     ambulances res.1 !! aid = Some (released a)) ∧
  (∀ assigner ambulanceId hid routeResult t st0 h,
     hid ≠ EmptyString → hospitals st0 !! hid = Some h →
     succeeded (put_assign assigner id ambulanceId (Some hid) routeResult t st0) →
     st = serve st0 (Assign assigner id ambulanceId (Some hid) routeResult t) →
     available_at hid st = Some (cap_available (emergencyCapacity h) - 1) ∧
     available_at hid res.1 = Some (cap_available (emergencyCapacity h) - 1)).
Proof.
  intros res.
  assert (hospitals res.1 = hospitals st) as Hframe.
  { unfold res. change "cancelled" with (status_name cancelled).
    rewrite put_status_name.
    destruct (put_status_valid req_user id cancelled notes now st)
      as [st' [r|err]] eqn:Hrun; simpl.
    - apply put_status_valid_ok in Hrun as (e & _ & _ & _ & _ & _ & ->).
      by rewrite status_effect_hospitals.
    - by apply put_status_valid_throw in Hrun as ->. }
  split; [done|]. split.
  - intros Hok e aid a He Hea Hamb.
    apply succeeded_inv in Hok as [r Hrun]. revert Hrun. unfold res.
    change "cancelled" with (status_name cancelled). rewrite put_status_name.
    destruct (put_status_valid req_user id cancelled notes now st)
      as [st' res'] eqn:Hrun.
    simpl. intros [= ->].
    apply put_status_valid_ok in Hrun as (e' & He' & _ & _ & _ & _ & ->).
    simplify_eq. rewrite status_effect_ambulances, Hea, Hamb. simpl.
    apply lookup_insert_eq.
  - intros assigner ambulanceId hid routeResult t st0 h Hhid Hh Hok Hst.
    assert (available_at hid st =
            Some (cap_available (emergencyCapacity h) - 1)) as Hav.
    { apply succeeded_inv in Hok as [r Hrun]. rewrite Hst. simpl.
      destruct (put_assign assigner id ambulanceId (Some hid) routeResult t st0)
        as [st1 res1] eqn:Hrun1.
      simpl in Hrun. injection Hrun as ->. simpl.
      apply put_assign_ok in Hrun1
        as (aid & e & a & _ & _ & _ & _ & _ & _ & Hready & ->).
      unfold available_at. rewrite assign_effect_hospitals.
      unfold hospital_ready in Hready. unfold given in *.
      rewrite decide_False in * by done. rewrite Hh in *.
      rewrite lookup_insert_eq. simpl.
      apply bool_decide_eq_true in Hready. f_equal. lia. }
    split; [done|]. unfold available_at in *. by rewrite Hframe.
Qed.

Lemma cancellation_keeps_hospital_witness :
  let st := scenario_assigned in
  let res := put_status patient_u "e1" (Some "cancelled") None 2 st in
  succeeded res ∧
  hospitals res.1 = hospitals st ∧
  ambulances res.1 !! "a1" = Some (released (dispatched "e1" sample_ambulance)) ∧
  available_at "h1" (scenario pending) = Some 1 ∧
  available_at "h1" st = Some (1 - 1) ∧
  available_at "h1" res.1 = Some (1 - 1).
Proof.
  intros st res.
  destruct (cancellation_keeps_hospital patient_u "e1" None 2 st)
    as (Hframe & Hrelease & Htaken).
  assert (succeeded res) as Hok by (by vm_compute).
  split; [exact Hok|]. split; [exact Hframe|]. split.
  - apply (Hrelease Hok (emergency_at "e1" st) "a1"
             (dispatched "e1" sample_ambulance)); by vm_compute.
  - split; [reflexivity|].
    apply (Htaken admin_r (Some "a1") "h1" None 1 (scenario pending)
             sample_hospital).
    + discriminate.
    + reflexivity.
    + by vm_compute.
    + reflexivity.
Defined.

(** *** Feedback *)

Lemma Qltb_false x y : Qltb x y = false ↔ (y <= x)%Q.
Proof.
  unfold Qltb. rewrite negb_false_iff. apply Qle_bool_iff.
Qed.

Lemma Qltb_true x y : Qltb x y = true ↔ (x < y)%Q.
Proof.
  unfold Qltb. rewrite negb_true_iff. split.
  - intros H. apply Qnot_le_lt. intros Hle. apply Qle_bool_iff in Hle. congruence.
  - intros H. destruct (Qle_bool y x) eqn:Hle; [|done].
    apply Qle_bool_iff in Hle. by apply Qlt_not_le in H.
Qed.

(** C7.  Feedback on an emergency whose status is not [completed], or from
    a caller who is neither its patient nor its requester, fails and leaves
    the whole store (emergency and hospital included) as it was.  When the
    request succeeds the rating lies in 1..5, the emergency is completed,
    the caller is patient or requester, and the hospital of the emergency
    gets the average [(oldAvg * oldCount + rating) / (oldCount + 1)] and
    the count [oldCount + 1]. *)
Theorem feedback_guarded_and_averaged req_user id rating comment now st e :
  emergencies st !! id = Some e →
  let res := post_feedback req_user id rating comment now st in
  (e_status e ≠ completed ∨
   (patient e ≠ u_id req_user ∧ requestedBy e ≠ u_id req_user) →
   failed res ∧ res.1 = st) ∧
  (succeeded res →
   ∃ q, rating = Some q ∧ (1 <= q)%Q ∧ (q <= 5)%Q ∧
        e_status e = completed ∧
        (patient e = u_id req_user ∨ requestedBy e = u_id req_user) ∧
        ∀ hid h, e_hospital e = Some hid → hospitals st !! hid = Some h →
          ∃ h', hospitals res.1 !! hid = Some h' ∧
                average (h_rating h') =
                  ((average (h_rating h) * inject_Z (count (h_rating h)) + q) /
                   inject_Z (count (h_rating h) + 1))%Q ∧
                count (h_rating h') = count (h_rating h) + 1 ∧
                emergencyCapacity h' = emergencyCapacity h).
Proof.
  intros He res. unfold res, post_feedback. unfold_handler.
  destruct rating as [q|]; simpl.
  2: { split; [by intros _|done]. }
  destruct (Qeq_bool q 0 || Qltb q 1 || Qltb 5 q) eqn:Hq; simpl.
  { split; [by intros _|done]. }
  apply orb_false_iff in Hq as [Hq H5]. apply orb_false_iff in Hq as [_ H1].
  apply Qltb_false in H1, H5.
  rewrite He. simpl.
  destruct (decide (patient e = u_id req_user)) as [Hpat|Hpat];
    destruct (decide (requestedBy e = u_id req_user)) as [Hreq|Hreq];
    destruct (decide (e_status e = completed)) as [Hst|Hst].
  all: rewrite ?(bool_decide_eq_true_2 _ Hpat), ?(bool_decide_eq_false_2 _ Hpat),
         ?(bool_decide_eq_true_2 _ Hreq), ?(bool_decide_eq_false_2 _ Hreq),
         ?(bool_decide_eq_true_2 _ Hst), ?(bool_decide_eq_false_2 _ Hst); simpl.
  all: try (split; [by intros _|done]).
  all: split; [intros [?|[? ?]]; done|].
  all: intros Hok; exists q; repeat split; auto.
  all: intros hid h Heh Hh; revert Hok; rewrite Heh; simpl; rewrite Hh; simpl.
  all: destruct (average_valid (h_rating h) (newAvg (h_rating h) q)); simpl;
         [intros _|done].
  all: rewrite lookup_insert_eq; eauto.
Qed.

Lemma feedback_guarded_and_averaged_witness :
  let st := scenario_completed in
  let h := restored (taken sample_hospital) in
  let res := post_feedback patient_u "e1" (Some 4%Q) None 9 st in
  succeeded res ∧
  ∃ h', hospitals res.1 !! "h1" = Some h' ∧
        average (h_rating h') =
          ((average (h_rating h) * inject_Z (count (h_rating h)) + 4) /
           inject_Z (count (h_rating h) + 1))%Q ∧
        count (h_rating h') = count (h_rating h) + 1 ∧
        emergencyCapacity h' = emergencyCapacity h.
Proof.
  intros st h res.
  assert (succeeded res) as Hok by (vm_compute; exact I).
  split; [exact Hok|].
  destruct (feedback_guarded_and_averaged patient_u "e1" (Some 4%Q) None 9
              st (emergency_at "e1" st))
    as [_ Hs]; [vm_compute; reflexivity|].
  destruct (Hs Hok) as (q & Hq & _ & _ & _ & _ & Hh).
  injection Hq as <-.
  apply (Hh "h1" h); vm_compute; reflexivity.
Defined.

(** *** Refunds *)

(** C9.  A refund succeeds only on a payment whose status is [completed]
    and only for an amount [a] with [0 < a <= amount]; then the payment
    keeps its amount, records the refund, and becomes [refunded] exactly
    when [a] equals the original amount, staying [completed] otherwise.
    With any other status or amount the request fails and the store is
    unchanged.  An administrator's request that meets the two conditions
    does succeed. *)
Theorem refund_guarded req_user id amount reason now st p :
  payments st !! id = Some p →
  let res := post_refund req_user id amount reason now st in
  (succeeded res →
   p_status p = pay_completed ∧
   ∃ a, amount = Some a ∧ (0 < a)%Q ∧ (a <= p_amount p)%Q ∧
     ∃ p', payments res.1 !! id = Some p' ∧
           p_amount p' = p_amount p ∧
           (r_amount <$> p_refund p') = Some a ∧
           (p_status p' = pay_refunded ↔ (a == p_amount p)%Q) ∧
           (¬ (a == p_amount p)%Q → p_status p' = pay_completed)) ∧
  (p_status p ≠ pay_completed ∨
   match amount with
   | Some a => ¬ ((0 < a)%Q ∧ (a <= p_amount p)%Q)
   | None => True
   end →
   failed res ∧ res.1 = st) ∧
  (u_role req_user = admin → p_status p = pay_completed →
   ∀ a, amount = Some a → (0 < a)%Q → (a <= p_amount p)%Q → succeeded res).
Proof.
  intros Hp res. unfold res, post_refund. unfold_handler.
  destruct (decide (u_role req_user = admin)) as [Hadm|Hadm].
  2: { rewrite (bool_decide_eq_false_2 _ Hadm). simpl.
       split; [done|]. split; [done|]. by intros ?. }
  rewrite (bool_decide_eq_true_2 _ Hadm). simpl. rewrite Hp. simpl.
  destruct (decide (p_status p = pay_completed)) as [Hst|Hst].
  2: { rewrite (bool_decide_eq_false_2 _ Hst). simpl.
       split; [done|]. split; [done|]. by intros _ ?. }
  rewrite (bool_decide_eq_true_2 _ Hst). simpl.
  destruct amount as [a|]; simpl.
  2: { split; [done|]. split; [done|]. by intros _ _ a ?. }
  destruct (Qeq_bool a 0 || Qle_bool a 0 || Qltb (p_amount p) a) eqn:Hck; simpl.
  - split; [done|]. split; [done|].
    intros _ _ a' [= <-] Hpos Hle.
    apply orb_true_iff in Hck as [Hck|Hck];
      [apply orb_true_iff in Hck as [Hck|Hck]|].
    + apply Qeq_bool_iff in Hck. rewrite Hck in Hpos. by apply Qlt_irrefl in Hpos.
    + apply Qle_bool_iff in Hck. by apply Qlt_not_le in Hpos.
    + apply Qltb_true in Hck. by apply Qlt_not_le in Hck.
  - apply orb_false_iff in Hck as [Hck Hle].
    apply orb_false_iff in Hck as [_ Hpos].
    apply Qltb_false in Hle.
    assert (0 < a)%Q as Hpos'.
    { apply Qnot_le_lt. intros H. apply Qle_bool_iff in H. congruence. }
    split; [|split].
    + intros _. split; [done|]. exists a. repeat split; try done.
      eexists. split; [apply lookup_insert_eq|]. simpl.
      repeat split; try done.
      * destruct (Qeq_bool a (p_amount p)) eqn:Heq; [|done].
        intros _. by apply Qeq_bool_iff.
      * intros Heq. apply Qeq_bool_iff in Heq. by rewrite Heq.
      * intros Hne. destruct (Qeq_bool a (p_amount p)) eqn:Heq; [|done].
        by apply Qeq_bool_iff in Heq.
    + intros [?|Hbad]; [done|]. by destruct Hbad.
    + done.
Qed.

Lemma refund_guarded_witness :
  let full := post_refund admin_r "p1" (Some 100%Q) None 10 scenario_paid in
  let part := post_refund admin_r "p1" (Some 40%Q) None 10 scenario_paid in
  succeeded full ∧ payment_status_at "p1" full.1 = Some pay_refunded ∧
  succeeded part ∧ payment_status_at "p1" part.1 = Some pay_completed ∧
  succeeded (post_refund admin_r "p1" (Some 40%Q) None 11 part.1) ∧
  failed (post_refund admin_r "p1" (Some 101%Q) None 10 scenario_paid).
Proof.
  intros full part.
  destruct (refund_guarded admin_r "p1" (Some 100%Q) None 10 scenario_paid
              sample_payment eq_refl) as (_ & _ & Hfull).
  destruct (refund_guarded admin_r "p1" (Some 101%Q) None 10 scenario_paid
              sample_payment eq_refl) as (_ & Hfail & _).
  split; [apply (Hfull eq_refl eq_refl 100%Q eq_refl); vm_compute; first [reflexivity | discriminate]|].
  split; [vm_compute; reflexivity|].
  split; [vm_compute; exact I|].
  split; [vm_compute; reflexivity|].
  split; [vm_compute; exact I|].
  apply Hfail. right. intros [_ Hle]. vm_compute in Hle. exact (Hle eq_refl).
Defined.

(** *** The nearby-hospital lookup *)

Lemma slice0_take {A} (l : list A) n :
  0 ≤ n → slice0 l n = take (Z.to_nat n) l.
Proof. intros Hn. unfold slice0. by rewrite bool_decide_eq_true_2. Qed.

Lemma filteredGoogleHospitals_spec toLowerCase db places g :
  g ∈ filteredGoogleHospitals toLowerCase db places ↔
  ∃ p, p ∈ places ∧ g = toGoogleHospital p ∧
       ∀ h, h ∈ db → toLowerCase (pl_name p) ≠ toLowerCase (nh_name h).
Proof.
  unfold filteredGoogleHospitals.
  rewrite list_elem_of_In, in_map_iff. split.
  - intros (p & <- & Hp). apply list_elem_of_In, list_elem_of_filter in Hp as [Hn Hp].
    exists p. repeat split; [done|].
    intros h Hh Heq. apply Hn. rewrite Heq.
    apply list_elem_of_In, in_map_iff. exists h. by rewrite <- list_elem_of_In.
  - intros (p & Hp & -> & Hn). exists p. split; [done|].
    apply list_elem_of_In, list_elem_of_filter. split; [|done].
    intros Hin. apply list_elem_of_In, in_map_iff in Hin as (h & Heq & Hh).
    apply (Hn h); [by apply list_elem_of_In|done].
Qed.

(** The handler that is registered for [GET /nearby], taken by itself.
    When the store yields at least the requested number of hospitals
    the lookup returns them alone.  Otherwise, when the provider answers,
    the result is the stored hospitals followed by the first
    [limit - stored] provider places, in provider order, whose name matches
    no stored name case-insensitively; it has at most [limit] entries.
    When the provider fails the result is the stored hospitals together
    with the error message, and the request still succeeds. *)
Lemma nearby_merge findNearest getNearbyHospitals toLowerCase
    la lo radius limit :
  let c := mkCoordinates la lo in
  let r := default 5000 radius in
  let n := default 5 limit in
  let db := findNearest c r n in
  let res :=
    get_nearby findNearest getNearbyHospitals toLowerCase
      (Some la) (Some lo) radius limit in
  (n ≤ Z.of_nat (length db) →
   res = Ok (mkNearbyResponse database (length db) (map Internal db) None)) ∧
  (Z.of_nat (length db) < n → ∀ places,
   getNearbyHospitals c r = inr places →
   ∃ exts,
     exts = take (Z.to_nat (n - Z.of_nat (length db)))
              (filteredGoogleHospitals toLowerCase db places) ∧
     res = Ok (mkNearbyResponse combined
                 (length (map Internal db ++ map External exts))
                 (map Internal db ++ map External exts) None) ∧
     Z.of_nat (length (map Internal db ++ map External exts)) ≤ n ∧
     (∀ g, g ∈ exts →
        ∃ p, p ∈ places ∧ g = toGoogleHospital p ∧
             ∀ h, h ∈ db → toLowerCase (pl_name p) ≠ toLowerCase (nh_name h))) ∧
  (Z.of_nat (length db) < n → ∀ error_message,
   getNearbyHospitals c r = inl error_message →
   res = Ok (mkNearbyResponse database (length db) (map Internal db)
               (Some error_message))).
Proof.
  intros c r n db res. unfold res, get_nearby. fold c r n db.
  split; [|split].
  - intros Hn. by rewrite bool_decide_eq_true_2.
  - intros Hn places Hg. rewrite bool_decide_eq_false_2 by lia.
    fold c r n. rewrite Hg. fold db.
    rewrite slice0_take by lia.
    eexists. split; [reflexivity|]. split; [done|]. split.
    + rewrite length_app, !length_map, length_take. lia.
    + intros g Hin. apply subseteq_take in Hin.
      by apply filteredGoogleHospitals_spec.
  - intros Hn msg Hg. rewrite bool_decide_eq_false_2 by lia.
    fold c r n. by rewrite Hg.
Qed.

Lemma nearby_merge_witness :
  let res :=
    get_nearby sample_findNearest sample_provider ascii_toLowerCase
      (Some 12%Q) (Some 77%Q) None (Some 5) in
  let failing :=
    get_nearby sample_findNearest failing_provider ascii_toLowerCase
      (Some 12%Q) (Some 77%Q) None (Some 5) in
  let enough :=
    get_nearby sample_findNearest sample_provider ascii_toLowerCase
      (Some 12%Q) (Some 77%Q) None (Some 2) in
  (match res with
   | Ok x => map entry_name (nr_data x)
   | Throw _ => []
   end = ["City Hospital"; "St. Mary"; "Apollo"; "Fortis"; "Manipal"]) ∧
  (match failing with
   | Ok x => (map entry_name (nr_data x), nr_error x)
   | Throw _ => ([], None)
   end = (["City Hospital"; "St. Mary"; "Apollo"],
          Some "Nearby search failed: OVER_QUERY_LIMIT")) ∧
  (match enough with
   | Ok x => (nr_source x, map entry_name (nr_data x))
   | Throw _ => (combined, [])
   end = (database, ["City Hospital"; "St. Mary"])).
Proof.
  intros res failing enough.
  destruct (nearby_merge sample_findNearest sample_provider ascii_toLowerCase
              12%Q 77%Q None (Some 5)) as (_ & Hmerge & _).
  destruct (nearby_merge sample_findNearest failing_provider ascii_toLowerCase
              12%Q 77%Q None (Some 5)) as (_ & _ & Hfail).
  destruct (nearby_merge sample_findNearest sample_provider ascii_toLowerCase
              12%Q 77%Q None (Some 2)) as (Henough & _ & _).
  split; [|split].
  - destruct (Hmerge ltac:(vm_compute; reflexivity) _ eq_refl)
      as (exts & -> & Hres & _).
    unfold res. rewrite Hres. vm_compute. reflexivity.
  - unfold failing.
    rewrite (Hfail ltac:(vm_compute; reflexivity) _ eq_refl).
    vm_compute. reflexivity.
  - unfold enough.
    rewrite (Henough ltac:(vm_compute; discriminate)).
    vm_compute. reflexivity.
Defined.

(** *** The nearby lookup behind the router *)

Lemma match_path_id (x : string) :
  x ≠ EmptyString → match_path [Param "id"] [x] = Some [("id", x)].
Proof. intros Hx. simpl. by rewrite decide_False. Qed.

(** No request reaches the handler registered for [/nearby]: a [GET] on a
    one-segment path is taken by [/:id], registered before it. *)
Lemma dispatch_never_nearby m path :
  fst <$> dispatch hospital_routes m path ≠ Some NearbyHospitals.
Proof.
  unfold hospital_routes.
  destruct m, path as [|x [|y [|z path]]]; simpl; try discriminate.
  all: repeat (case_decide; simpl); try discriminate.
  subst x. discriminate.
Qed.

(** C8 (the code departs from the claim).  The router registers
    [GET /:id] before [GET /nearby], so a request for
    [/api/hospitals/nearby] is answered by the handler of [/:id] with
    ["nearby"] as the id.  That is no [ObjectId]: the cast in
    [Hospital.findById] fails and the request ends with a 500, whatever the
    query, the store, the stored hospitals and the maps provider.  The
    lookup never returns a result, and no request of any method and path
    reaches its handler. *)
Theorem nearby_route_shadowed
    castObjectId active findNearest getNearbyHospitals toLowerCase :
  castObjectId "nearby" = None →
  (∀ m path, fst <$> dispatch hospital_routes m path ≠ Some NearbyHospitals) ∧
  dispatch hospital_routes GET ["nearby"] =
    Some (GetHospital, [("id", "nearby")]) ∧
  ∀ qlat qlng radius limit st,
    get_hospitals_segment castObjectId active findNearest getNearbyHospitals
      toLowerCase "nearby" qlat qlng radius limit st =
    (st, Failed (mkHttpError 500 "CastError")).
Proof.
  intros Hcast. split; [apply dispatch_never_nearby|]. split; [reflexivity|].
  intros qlat qlng radius limit st.
  unfold get_hospitals_segment.
  change (dispatch hospital_routes GET ["nearby"])
    with (Some (GetHospital, [("id", "nearby")])).
  unfold get_hospital. unfold_route.
  change (default EmptyString (assoc "id" [("id", "nearby")])) with "nearby".
  by rewrite Hcast.
Qed.

Lemma nearby_route_shadowed_witness :
  let res :=
    get_hospitals_segment hex24 (λ _, true) sample_findNearest sample_provider
      ascii_toLowerCase "nearby" (Some 12%Q) (Some 77%Q) None (Some 5)
      scenario_admins in
  res = (scenario_admins, Failed (mkHttpError 500 "CastError")) ∧
  get_nearby sample_findNearest sample_provider ascii_toLowerCase
    (Some 12%Q) (Some 77%Q) None (Some 5) ≠ Throw LatLngRequired.
Proof.
  intros res. split.
  - destruct (nearby_route_shadowed hex24 (λ _, true) sample_findNearest
                sample_provider ascii_toLowerCase eq_refl) as (_ & _ & Hres).
    apply Hres.
  - vm_compute. discriminate.
Defined.

(** * Further properties of the lifecycle *)

Lemma serve_cases st r :
  serve st r = st ∨
  (∃ u id aId hId rt now aid e a,
     r = Assign u id aId hId rt now ∧
     emergencies st !! id = Some e ∧ ambulances st !! aid = Some a ∧
     a_status a = available ∧
     serve st r = assign_effect u id e aid a hId now st) ∨
  (∃ u id status notes now s e,
     r = UpdateStatus u id status notes now ∧
     emergencies st !! id = Some e ∧
     serve st r = status_effect id e s notes now st).
Proof.
  destruct r as [u id aId hId rt now|u id status notes now]; simpl.
  - destruct (put_assign u id aId hId rt now st) as [st' [r|err]] eqn:Hrun.
    + apply put_assign_ok in Hrun as (aid & e & a & _ & He & Ha & _ & Hav & _ & _ & ->).
      right. left. exists u, id, aId, hId, rt, now, aid, e, a. by repeat split.
    + apply put_assign_throw in Hrun as ->. by left.
  - destruct (put_status u id status notes now st) as [st' [r|err]] eqn:Hrun.
    + destruct (put_status_cases u id status notes now st) as [[e' Heq]|[s Heq]];
        rewrite Heq in Hrun; [done|].
      apply put_status_valid_ok in Hrun as (e & He & _ & _ & _ & _ & ->).
      right. right. exists u, id, status, notes, now, s, e. by repeat split.
    + apply put_status_throw in Hrun as ->. by left.
Qed.

Lemma serve_ambulance_step st r aid a :
  ambulances st !! aid = Some a →
  ∃ a', ambulances (serve st r) !! aid = Some a' ∧ ambulance_step a a'.
Proof.
  intros Ha.
  destruct (serve_cases st r) as [->|[Hc|Hc]].
  - eauto using ambulance_step.
  - destruct Hc as (u & id & aId & hId & rt & now & aid0 & e & a0 & _ & _ & Ha0 & _ & ->).
    rewrite assign_effect_ambulances.
    destruct (decide (aid0 = aid)) as [->|Hne].
    + rewrite lookup_insert_eq. simplify_eq. eauto using ambulance_step.
    + rewrite lookup_insert_ne by done. eauto using ambulance_step.
  - destruct Hc as (u & id & status & notes & now & s & e & _ & _ & ->).
    rewrite status_effect_ambulances.
    destruct (e_ambulance e) as [aid0|]; [|eauto using ambulance_step].
    destruct (ambulances st !! aid0) as [a0|] eqn:Ha0; [|eauto using ambulance_step].
    destruct (bool_decide (s = completed) || bool_decide (s = cancelled));
      [|eauto using ambulance_step].
    destruct (decide (aid0 = aid)) as [->|Hne].
    + rewrite lookup_insert_eq. simplify_eq. eauto using ambulance_step.
    + rewrite lookup_insert_ne by done. eauto using ambulance_step.
Qed.

Lemma ambulance_step_ok a a' :
  ambulance_step a a' → ambulance_ok a → ambulance_ok a'.
Proof. unfold ambulance_ok. intros [] ?; simpl; [done|split; done|split; done]. Qed.

(** X1.  Every ambulance that is busy exactly when it has an active
    emergency still exists and is still so after any sequence of assign and
    status requests. *)
Theorem ambulance_busy_iff_active rs st aid a :
  ambulances st !! aid = Some a →
  ambulance_ok a →
  ∃ a', ambulances (run rs st) !! aid = Some a' ∧ ambulance_ok a'.
Proof.
  revert st a. induction rs as [|r rs IH]; intros st a Ha Hok; simpl.
  - eauto.
  - destruct (serve_ambulance_step st r aid a Ha) as (a1 & Ha1 & Hstep).
    apply (IH _ a1 Ha1). by apply (ambulance_step_ok a).
Qed.

Lemma ambulance_busy_iff_active_witness :
  ∃ a', ambulances
          (run (Assign admin_r "e1" (Some "a1") (Some "h1") None 1 ::
                advance admin_r "e1" 2) (scenario pending)) !! "a1" = Some a' ∧
        ambulance_ok a'.
Proof.
  apply (ambulance_busy_iff_active _ (scenario pending) "a1" sample_ambulance).
  - reflexivity.
  - unfold ambulance_ok. simpl. split; [discriminate|intros H; by destruct H].
Defined.

Lemma serve_emergency_step st r id e :
  emergencies st !! id = Some e →
  ∃ e', emergencies (serve st r) !! id = Some e' ∧ emergency_step e e'.
Proof.
  intros He.
  assert (emergency_step e e) as Hrefl by (by repeat split).
  destruct (serve_cases st r) as [->|[Hc|Hc]].
  - eauto.
  - destruct Hc as (u & id0 & aId & hId & rt & now & aid0 & e0 & a0 & _ & He0 & _ & _ & ->).
    rewrite assign_effect_emergencies.
    destruct (decide (id0 = id)) as [->|Hne].
    + rewrite lookup_insert_eq. simplify_eq. eexists. split; [done|].
      repeat split. apply prefix_app_r. done.
    + rewrite lookup_insert_ne by done. eauto.
  - destruct Hc as (u & id0 & status & notes & now & s & e0 & _ & He0 & ->).
    rewrite status_effect_emergencies.
    destruct (decide (id0 = id)) as [->|Hne].
    + rewrite lookup_insert_eq. simplify_eq. eexists. split; [done|].
      repeat split. apply prefix_app_r. done.
    + rewrite lookup_insert_ne by done. eauto.
Qed.

(** X2.  The timeline of an emergency is append-only: after any sequence of
    assign and status requests the emergency still exists, has the same
    patient and requester, and its earlier timeline is a prefix of its
    timeline. *)
Theorem timeline_append_only rs st id e :
  emergencies st !! id = Some e →
  ∃ e', emergencies (run rs st) !! id = Some e' ∧
        patient e' = patient e ∧ requestedBy e' = requestedBy e ∧
        timeline e `prefix_of` timeline e'.
Proof.
  revert st e. induction rs as [|r rs IH]; intros st e He; simpl.
  - exists e. by repeat split.
  - destruct (serve_emergency_step st r id e He) as (e1 & He1 & Hp & Hr & Ht).
    destruct (IH _ e1 He1) as (e' & He' & Hp' & Hr' & Ht').
    exists e'. repeat split; [done|congruence|congruence|by etrans].
Qed.

Lemma timeline_append_only_witness :
  ∃ e', emergencies
          (run (advance admin_r "e1" 2) scenario_assigned) !! "e1" = Some e' ∧
        patient e' = patient (emergency_at "e1" scenario_assigned) ∧
        requestedBy e' = requestedBy (emergency_at "e1" scenario_assigned) ∧
        timeline (emergency_at "e1" scenario_assigned) `prefix_of` timeline e'.
Proof.
  apply (timeline_append_only _ scenario_assigned "e1").
  vm_compute. reflexivity.
Defined.

Lemma assign_effect_payments req_user id e aid a hospitalId now st :
  payments (assign_effect req_user id e aid a hospitalId now st) =
  payments st.
Proof. unfold assign_effect. by repeat case_match. Qed.

Lemma status_effect_payments id e s notes now st :
  payments (status_effect id e s notes now st) = payments st.
Proof.
  unfold status_effect.
  destruct s; simpl;
    rewrite ?(proj2 (proj2 (proj2 (restore_capacity_frame _ _)))),
            ?(proj2 (proj2 (proj2 (release_ambulance_frame _ _)))); done.
Qed.

(** X3.  Assign and status requests never touch users or payments and never
    create or delete a document: the sets of ambulance, hospital and
    emergency ids stay what they were. *)
Theorem lifecycle_frame rs st :
  users (run rs st) = users st ∧
  payments (run rs st) = payments st ∧
  dom (ambulances (run rs st)) = dom (ambulances st) ∧
  dom (hospitals (run rs st)) = dom (hospitals st) ∧
  dom (emergencies (run rs st)) = dom (emergencies st).
Proof.
  revert st. induction rs as [|r rs IH]; intros st; simpl; [done|].
  destruct (IH (serve st r)) as (-> & -> & -> & -> & ->).
  destruct (serve_cases st r) as [->|[Hc|Hc]]; [done| |].
  - destruct Hc as (u & id & aId & hId & rt & now & aid & e & a & _ & He & Ha & _ & ->).
    rewrite assign_effect_users, assign_effect_ambulances,
      assign_effect_emergencies, assign_effect_hospitals.
    repeat split.
    + apply assign_effect_payments.
    + apply dom_insert_lookup_L; eauto.
    + destruct (given hId) as [hid|]; [|done].
      destruct (hospitals st !! hid) as [h|] eqn:Hh; [|done].
      apply dom_insert_lookup_L; eauto.
    + apply dom_insert_lookup_L; eauto.
  - destruct Hc as (u & id & status & notes & now & s & e & _ & He & ->).
    rewrite status_effect_users, status_effect_ambulances,
      status_effect_emergencies, status_effect_hospitals.
    repeat split.
    + apply status_effect_payments.
    + destruct (e_ambulance e) as [aid|]; [|done].
      destruct (ambulances st !! aid) as [a|] eqn:Ha; [|done].
      destruct (bool_decide (s = completed) || bool_decide (s = cancelled));
        [|done].
      apply dom_insert_lookup_L; eauto.
    + destruct s; try done.
      destruct (e_hospital e) as [hid|]; [|done].
      destruct (hospitals st !! hid) as [h|] eqn:Hh; [|done].
      apply dom_insert_lookup_L; eauto.
    + apply dom_insert_lookup_L; eauto.
Qed.

(** X4.  Right after a successful assignment the ambulance is busy, and
    an assign request that names it and comes before any other request
    fails and changes nothing, for whatever emergency, hospital and caller.
    (Only this next request is covered: X18 shows how later requests can
    make a busy ambulance available again.) *)
Theorem assign_right_after_assign_rejected
    u1 id1 aId1 hId1 rt1 t1 st aid u2 id2 aId2 hId2 rt2 t2 :
  given aId1 = Some aid → given aId2 = Some aid →
  succeeded (put_assign u1 id1 aId1 hId1 rt1 t1 st) →
  let st1 := serve st (Assign u1 id1 aId1 hId1 rt1 t1) in
  let res := put_assign u2 id2 aId2 hId2 rt2 t2 st1 in
  a_status <$> ambulances st1 !! aid = Some busy ∧
  failed res ∧ res.1 = st1.
Proof.
  intros Hg1 Hg2 Hok st1 res.
  apply succeeded_inv in Hok as [r Hrun].
  assert (a_status <$> ambulances st1 !! aid = Some busy) as Hbusy.
  { unfold st1. simpl. rewrite Hrun. simpl.
    destruct (put_assign u1 id1 aId1 hId1 rt1 t1 st) as [st' res'] eqn:Hrun'.
    simpl in Hrun. injection Hrun as ->.
    apply put_assign_ok in Hrun' as (aid' & e & a & Hg & _ & _ & _ & _ & _ & _ & ->).
    simplify_eq. simpl.
    by rewrite assign_effect_ambulances, lookup_insert_eq. }
  split; [done|]. clearbody st1. unfold res.
  destruct (put_assign u2 id2 aId2 hId2 rt2 t2 st1) as [st2 [r2|err]] eqn:Hrun2.
  - apply put_assign_ok in Hrun2 as (aid' & e & a & Hg & _ & Ha & _ & Hav & _).
    simplify_eq. rewrite Ha in Hbusy. simpl in Hbusy. congruence.
  - apply put_assign_throw in Hrun2 as ->. by split.
Qed.

Lemma assign_right_after_assign_rejected_witness :
  let st1 := serve (scenario pending)
               (Assign admin_r "e1" (Some "a1") (Some "h1") None 1) in
  let res := put_assign admin_r "e1" (Some "a1") None None 2 st1 in
  a_status <$> ambulances st1 !! "a1" = Some busy ∧
  failed res ∧ res.1 = st1.
Proof.
  apply (assign_right_after_assign_rejected admin_r "e1" (Some "a1") (Some "h1") None
           1 (scenario pending) "a1" admin_r "e1" (Some "a1") None None 2).
  - reflexivity.
  - reflexivity.
  - vm_compute. exact I.
Defined.

(** X5.  Completion and cancellation give the ambulance back: after a
    successful status update to [completed] or [cancelled] of an emergency
    whose ambulance has a driver, an administrator's request to assign that
    ambulance to any existing emergency is treated like a first one: it
    succeeds exactly when no route was computed for it. *)
Theorem released_ambulance_assignable
    req_user id s notes now st e aid a assigner id2 routeResult t :
  s = completed ∨ s = cancelled →
  emergencies st !! id = Some e → e_ambulance e = Some aid →
  ambulances st !! aid = Some a → has_driver a st = true →
  aid ≠ EmptyString →
  succeeded (put_status req_user id (Some (status_name s)) notes now st) →
  let st1 := serve st (UpdateStatus req_user id (Some (status_name s)) notes now) in
  u_role assigner = admin →
  is_Some (emergencies st1 !! id2) →
  (succeeded (put_assign assigner id2 (Some aid) None routeResult t st1) ↔
   routeResult = None).
Proof.
  intros Hs He Hea Ha Hdr Hne Hok st1 Hadm [e2 He2].
  apply succeeded_inv in Hok as [r Hrun].
  assert (ambulances st1 !! aid = Some (released a) ∧ users st1 = users st)
    as [Ha1 Hu1].
  { unfold st1. simpl. revert Hrun. rewrite put_status_name.
    destruct (put_status_valid req_user id s notes now st) as [st' res'] eqn:Hrun'.
    simpl. intros [= ->].
    apply put_status_valid_ok in Hrun' as (e' & He' & _ & _ & _ & _ & ->).
    simplify_eq. rewrite status_effect_ambulances, status_effect_users, Hea, Ha.
    destruct Hs as [-> | ->]; simpl; by rewrite lookup_insert_eq. }
  clearbody st1.
  assert (given (Some aid) = Some aid) as Hg
    by (unfold given; by rewrite decide_False).
  assert (authorized_to_assign assigner None st1 = true) as Hauth
    by (unfold authorized_to_assign; by rewrite bool_decide_eq_true_2).
  assert (has_driver (released a) st1 = true) as Hdr1
    by (unfold has_driver in *; simpl; by rewrite Hu1).
  pose proof (put_assign_passes assigner id2 (Some aid) None routeResult t st1
                aid e2 (released a) Hg He2 Ha1 Hauth eq_refl Hdr1 eq_refl)
    as Hpass.
  destruct routeResult as [rr|].
  - rewrite Hpass. split; [intros []|discriminate].
  - destruct Hpass as [r' ->]. split; [done|intros _; exact I].
Qed.

Lemma released_ambulance_assignable_witness :
  let st := scenario_at_hospital in
  let st1 := serve st (UpdateStatus admin_r "e1" (Some (status_name completed))
                         None 3) in
  succeeded (put_assign admin_r "e1" (Some "a1") None None 4 st1) ∧
  ¬ succeeded (put_assign admin_r "e1" (Some "a1") None (Some sample_route) 4 st1).
Proof.
  intros st st1.
  assert (emergencies st !! "e1" = Some (emergency_at "e1" st)) as He
    by (vm_compute; reflexivity).
  assert (e_ambulance (emergency_at "e1" st) = Some "a1") as Hea
    by (vm_compute; reflexivity).
  assert (ambulances st !! "a1" = Some (dispatched "e1" sample_ambulance)) as Ha
    by (vm_compute; reflexivity).
  assert (has_driver (dispatched "e1" sample_ambulance) st = true) as Hdr
    by (vm_compute; reflexivity).
  assert ("a1" ≠ EmptyString) as Hne by discriminate.
  assert (succeeded (put_status admin_r "e1" (Some (status_name completed))
                       None 3 st)) as Hok by (vm_compute; exact I).
  assert (is_Some (emergencies st1 !! "e1")) as He1
    by (eexists; vm_compute; reflexivity).
  split.
  - exact (proj2 (released_ambulance_assignable admin_r "e1" completed None 3
                    st (emergency_at "e1" st) "a1"
                    (dispatched "e1" sample_ambulance) admin_r "e1" None 4
                    (or_introl eq_refl) He Hea Ha Hdr Hne Hok eq_refl He1)
             eq_refl).
  - intros Hs.
    pose proof (proj1 (released_ambulance_assignable admin_r "e1" completed
                         None 3 st (emergency_at "e1" st) "a1"
                         (dispatched "e1" sample_ambulance) admin_r "e1"
                         (Some sample_route) 4
                         (or_introl eq_refl) He Hea Ha Hdr Hne Hok eq_refl He1)
                  Hs) as Hn.
    discriminate Hn.
Defined.

(** *** Cancelling again *)

(** X18.  A cancellation releases the ambulance that the emergency names,
    whether or not that ambulance is serving it.  When the emergency (not
    completed; it may be cancelled already) still names an ambulance that
    is busy with another emergency, a cancel request of an authorized
    caller succeeds and makes the ambulance available with no active
    emergency, while the other emergency keeps naming it; an administrator
    can then assign the ambulance to a third emergency, so that two
    emergencies name the same ambulance. *)
Theorem stale_cancellation_frees_busy_ambulance
    req_user id notes now st e aid a id2 e2 :
  emergencies st !! id = Some e → e_status e ≠ completed →
  is_Some (users st !! patient e) →
  u_role req_user = admin ∨ patient e = u_id req_user ∨
    requestedBy e = u_id req_user →
  e_ambulance e = Some aid → ambulances st !! aid = Some a →
  a_status a = busy → activeEmergency a = Some id2 → id2 ≠ id →
  emergencies st !! id2 = Some e2 → e_ambulance e2 = Some aid →
  let res := put_status req_user id (Some "cancelled") notes now st in
  succeeded res ∧
  ambulances res.1 !! aid = Some (released a) ∧
  emergencies res.1 !! id2 = Some e2 ∧
  (has_driver a st = true → aid ≠ EmptyString →
   ∀ assigner id3 t,
     u_role assigner = admin → id3 ≠ id2 →
     is_Some (emergencies res.1 !! id3) →
     let res2 := put_assign assigner id3 (Some aid) None None t res.1 in
     succeeded res2 ∧
     emergencies res2.1 !! id2 = Some e2 ∧
     e_ambulance <$> emergencies res2.1 !! id3 = Some (Some aid) ∧
     e_status <$> emergencies res2.1 !! id3 = Some assigned).
Proof.
  intros He Hnc Hp Hwho Hea Ha Hbusy Hact Hne He2 Hea2 res.
  assert (authorized_for req_user e cancelled st = true) as Hauth.
  { unfold authorized_for.
    destruct Hwho as [Hw|[Hw|Hw]]; rewrite (bool_decide_eq_true_2 _ Hw);
      simpl; by rewrite ?orb_true_r. }
  assert (guarded cancelled = true →
          transition_table (e_status e) cancelled = true) as Htab.
  { intros _. unfold transition_table.
    by rewrite (bool_decide_eq_false_2 _ Hnc). }
  destruct (put_status_valid_succeeds req_user id cancelled notes now st e
              He Hp Hauth Htab) as (r & Hrun & _).
  unfold res. change "cancelled" with (status_name cancelled).
  rewrite put_status_name, Hrun.
  set (st1 := status_effect id e cancelled notes now st).
  cbn [fst snd]. unfold succeeded at 1. cbn [fst snd].
  assert (ambulances st1 !! aid = Some (released a)) as Ha1.
  { unfold st1. rewrite status_effect_ambulances, Hea, Ha. simpl.
    apply lookup_insert_eq. }
  assert (emergencies st1 !! id2 = Some e2) as He21.
  { unfold st1. rewrite status_effect_emergencies.
    by rewrite lookup_insert_ne. }
  assert (users st1 = users st) as Hu1 by apply status_effect_users.
  clearbody st1.
  split; [exact I|]. split; [exact Ha1|]. split; [exact He21|].
  intros Hdr Hnonempty assigner id3 t Hadm Hne3 [e3 He3].
  destruct (put_assign_succeeds assigner id3 (Some aid) None t st1 aid e3
              (released a)) as [r2 Hrun2]; try done.
  { unfold given. by rewrite decide_False. }
  { unfold authorized_to_assign. by rewrite bool_decide_eq_true_2. }
  { unfold has_driver in *. simpl. by rewrite Hu1. }
  rewrite Hrun2. unfold succeeded. cbn [fst snd].
  rewrite assign_effect_emergencies.
  split; [exact I|]. split; [by rewrite lookup_insert_ne|].
  by rewrite lookup_insert_eq.
Qed.

(** Three emergencies of one patient and one ambulance. *)
Lemma stale_cancellation_frees_busy_ambulance_witness :
  let st0 :=
    set_emergencies
      (λ m, <["e2":=sample_emergency pending]>
              (<["e3":=sample_emergency pending]> m))
      (scenario pending) in
  let st :=
    run [ Assign admin_r "e1" (Some "a1") None None 1;
          request_status patient_u "e1" cancelled 2;
          Assign admin_r "e2" (Some "a1") None None 3 ] st0 in
  let res := put_status patient_u "e1" (Some "cancelled") None 4 st in
  let res2 := put_assign admin_r "e3" (Some "a1") None None 5 res.1 in
  status_at "e1" st = Some cancelled ∧
  succeeded res ∧ succeeded res2 ∧
  (e_ambulance <$> emergencies res2.1 !! "e2") = Some (Some "a1") ∧
  status_at "e2" res2.1 = Some assigned ∧
  (e_ambulance <$> emergencies res2.1 !! "e3") = Some (Some "a1") ∧
  status_at "e3" res2.1 = Some assigned.
Proof.
  intros st0 st res res2.
  assert (emergencies st !! "e1" = Some (emergency_at "e1" st)) as He
    by (vm_compute; reflexivity).
  assert (emergencies st !! "e2" = Some (emergency_at "e2" st)) as He2
    by (vm_compute; reflexivity).
  assert (ambulances st !! "a1" = Some (dispatched "e2" sample_ambulance)) as Ha
    by (vm_compute; reflexivity).
  assert (e_status (emergency_at "e1" st) ≠ completed) as Hnc
    by (vm_compute; discriminate).
  assert (is_Some (users st !! patient (emergency_at "e1" st))) as Hp
    by (eexists; vm_compute; reflexivity).
  assert (patient (emergency_at "e1" st) = u_id patient_u) as Hwho
    by (vm_compute; reflexivity).
  assert (e_ambulance (emergency_at "e1" st) = Some "a1") as Hea
    by (vm_compute; reflexivity).
  assert (e_ambulance (emergency_at "e2" st) = Some "a1") as Hea2
    by (vm_compute; reflexivity).
  assert ("e2" ≠ "e1") as Hne by discriminate.
  destruct (stale_cancellation_frees_busy_ambulance patient_u "e1" None 4 st
              (emergency_at "e1" st) "a1" (dispatched "e2" sample_ambulance)
              "e2" (emergency_at "e2" st) He Hnc Hp (or_intror (or_introl Hwho))
              Hea Ha eq_refl eq_refl Hne He2 Hea2)
    as (Hok & _ & _ & Hnext).
  assert (has_driver (dispatched "e2" sample_ambulance) st = true) as Hdr
    by (vm_compute; reflexivity).
  assert ("a1" ≠ EmptyString) as Hnonempty by discriminate.
  assert ("e3" ≠ "e2") as Hne3 by discriminate.
  assert (is_Some (emergencies res.1 !! "e3")) as He3
    by (eexists; vm_compute; reflexivity).
  destruct (Hnext Hdr Hnonempty admin_r "e3" 5 eq_refl Hne3 He3)
    as (Hok2 & He2' & Hamb3 & Hst3).
  split; [vm_compute; reflexivity|].
  split; [exact Hok|]. split; [exact Hok2|].
  split; [|split; [|split; [exact Hamb3|]]].
  - unfold res2, res. rewrite He2'. vm_compute. reflexivity.
  - unfold status_at, res2, res. rewrite He2'. vm_compute. reflexivity.
  - exact Hst3.
Defined.

(** *** Assignments and computed routes *)

(** X19.  An assignment goes through only when no route was computed for
    it.  With a computed route every assign request fails and changes
    nothing; when the request passes all checks of the handler (ambulance
    id given, emergency and ambulance found, caller authorized, ambulance
    available with a driver, hospital found with capacity left) the failure
    is the rejected save of the emergency, a 500, and neither ambulance nor
    hospital is written. *)
Theorem assign_with_computed_route_rejected
    req_user id ambulanceId hospitalId r now st :
  let res := put_assign req_user id ambulanceId hospitalId (Some r) now st in
  failed res ∧ res.1 = st ∧
  (∀ aid e a,
     given ambulanceId = Some aid → emergencies st !! id = Some e →
     ambulances st !! aid = Some a →
     authorized_to_assign req_user hospitalId st = true →
     a_status a = available → has_driver a st = true →
     hospital_ready hospitalId st = true →
     res.2 = Throw EmergencyValidationFailed ∧
     statusCode EmergencyValidationFailed = 500 ∧
     kind EmergencyValidationFailed = Unhandled) ∧
  (∀ routeResult,
     succeeded (put_assign req_user id ambulanceId hospitalId routeResult now st) →
     routeResult = None).
Proof.
  intros res.
  assert (∀ routeResult,
            succeeded (put_assign req_user id ambulanceId hospitalId
                         routeResult now st) → routeResult = None) as Hnone.
  { intros routeResult Hok. apply succeeded_inv in Hok as [x Hrun].
    by apply put_assign_ok_route in Hrun. }
  assert (failed res ∧ res.1 = st) as [Hfail Hst].
  { unfold res.
    destruct (put_assign req_user id ambulanceId hospitalId (Some r) now st)
      as [st' [x|err]] eqn:Hrun.
    - by apply put_assign_ok_route in Hrun.
    - apply put_assign_throw in Hrun as ->. by split. }
  split; [exact Hfail|]. split; [exact Hst|]. split; [|exact Hnone].
  intros aid e a Hg He Ha Hauth Hav Hdr Hready. unfold res.
  rewrite (put_assign_passes req_user id ambulanceId hospitalId (Some r) now st
             aid e a Hg He Ha Hauth Hav Hdr Hready).
  by repeat split.
Qed.

Lemma assign_with_computed_route_rejected_witness :
  let st := scenario pending in
  let res := put_assign admin_r "e1" (Some "a1") (Some "h1")
               (Some sample_route) 1 st in
  res = (st, Throw EmergencyValidationFailed) ∧
  succeeded (put_assign admin_r "e1" (Some "a1") (Some "h1") None 1 st).
Proof.
  intros st res.
  destruct (assign_with_computed_route_rejected admin_r "e1" (Some "a1")
              (Some "h1") sample_route 1 st) as (_ & Hst & Hpass & _).
  destruct (Hpass "a1" (sample_emergency pending) sample_ambulance
              eq_refl eq_refl eq_refl eq_refl eq_refl eq_refl eq_refl)
    as (Hres & _).
  split.
  - fold res in Hst, Hres. destruct res as [st' out]. simpl in *.
    by rewrite Hst, Hres.
  - vm_compute. exact I.
Defined.

(** *** Repeated feedback *)

Lemma inject_Z_nonneg z : 0 ≤ z → (0 <= inject_Z z)%Q.
Proof. intros H. change 0%Q with (inject_Z 0). by rewrite <- Zle_Qle. Qed.

Lemma newAvg_bounds r q :
  0 ≤ count r → (0 <= average r)%Q → (average r <= 5)%Q →
  rating_in_range q →
  (0 <= newAvg r q)%Q ∧ (newAvg r q <= 5)%Q.
Proof.
  intros Hc H0 H5 [Hq1 Hq5]. unfold newAvg.
  pose proof (inject_Z_nonneg _ Hc) as Hc'.
  assert (0 < inject_Z (count r + 1))%Q as Hpos.
  { rewrite inject_Z_plus. change (inject_Z 1) with 1%Q. lra. }
  split.
  - apply Qle_shift_div_l; [done|]. rewrite Qmult_0_l.
    assert (0 <= average r * inject_Z (count r))%Q by (by apply Qmult_le_0_compat).
    lra.
  - apply Qle_shift_div_r; [done|]. rewrite inject_Z_plus.
    change (inject_Z 1) with 1%Q.
    assert (average r * inject_Z (count r) <= 5 * inject_Z (count r))%Q
      by (by apply Qmult_le_compat_r).
    lra.
Qed.

Lemma post_feedback_succeeds req_user id q comment now st e hid h :
  emergencies st !! id = Some e → e_status e = completed →
  patient e = u_id req_user ∨ requestedBy e = u_id req_user →
  e_hospital e = Some hid → hospitals st !! hid = Some h →
  rating_in_range q →
  0 ≤ count (h_rating h) →
  (0 <= average (h_rating h))%Q → (average (h_rating h) <= 5)%Q →
  post_feedback req_user id (Some q) comment now st =
    (set_hospitals
       (insert hid
          (mkHospital (h_name h) (administrators h) (emergencyCapacity h)
             (mkRating (newAvg (h_rating h) q) (count (h_rating h) + 1))))
       (set_emergencies
          (insert id
             (mkEmergency (patient e) (requestedBy e) (e_status e)
                (e_ambulance e) (e_hospital e) (e_route e) (timeline e)
                (Some (mkFeedback q comment now)) (e_payment e)))
          st),
     Ok (mkFeedback q comment now)).
Proof.
  intros He Hst Hwho Heh Hh [Hq1 Hq5] Hc H0 H5.
  unfold post_feedback. unfold_handler. simpl.
  assert (Qeq_bool q 0 || Qltb q 1 || Qltb 5 q = false) as ->.
  { apply orb_false_iff. split; [apply orb_false_iff; split|].
    - destruct (Qeq_bool q 0) eqn:Hz; [|done].
      apply Qeq_bool_iff in Hz. rewrite Hz in Hq1. by vm_compute in Hq1.
    - by apply Qltb_false.
    - by apply Qltb_false. }
  simpl. rewrite He. simpl.
  assert (negb (bool_decide (patient e = u_id req_user)) &&
          negb (bool_decide (requestedBy e = u_id req_user)) = false) as ->.
  { destruct Hwho as [Hw|Hw]; rewrite (bool_decide_eq_true_2 _ Hw); simpl;
      [done|by rewrite andb_false_r]. }
  simpl. rewrite (bool_decide_eq_true_2 _ Hst). simpl.
  rewrite Heh. simpl. rewrite Hh. simpl.
  destruct (newAvg_bounds (h_rating h) q) as [Hlo Hhi]; try done.
  assert (average_valid (h_rating h) (newAvg (h_rating h) q) = true) as ->.
  { unfold average_valid. rewrite bool_decide_eq_false_2 by lia. simpl.
    apply andb_true_iff. split; by apply Qle_bool_iff. }
  done.
Qed.

(** X6.  Feedback is not one-shot: when the patient or requester of a
    completed emergency submits ratings between 1 and 5 one after the
    other, every one of them is accepted; the count of the hospital grows
    by their number, its average stays within the 0..5 that the schema
    allows, its capacity is untouched, and the emergency keeps only the
    last rating. *)
Theorem repeated_feedback_accepted req_user id now ratings st e hid h :
  emergencies st !! id = Some e → e_status e = completed →
  patient e = u_id req_user ∨ requestedBy e = u_id req_user →
  e_hospital e = Some hid → hospitals st !! hid = Some h →
  0 ≤ count (h_rating h) →
  (0 <= average (h_rating h))%Q → (average (h_rating h) <= 5)%Q →
  Forall rating_in_range ratings →
  (∀ pre q post, ratings = pre ++ q :: post →
     succeeded (post_feedback req_user id (Some q) None now
                  (feedback_run req_user id now pre st))) ∧
  (∃ h', hospitals (feedback_run req_user id now ratings st) !! hid = Some h' ∧
         count (h_rating h') = count (h_rating h) + Z.of_nat (length ratings) ∧
         (0 <= average (h_rating h'))%Q ∧ (average (h_rating h') <= 5)%Q ∧
         emergencyCapacity h' = emergencyCapacity h) ∧
  (∃ e', emergencies (feedback_run req_user id now ratings st) !! id = Some e' ∧
         e_status e' = completed ∧
         fb_rating <$> feedback e' =
           match last ratings with
           | Some q => Some q
           | None => fb_rating <$> feedback e
           end).
Proof.
  intros He Hst Hwho Heh Hh Hc H0 H5 Hall.
  revert st e h He Hst Hwho Heh Hh Hc H0 H5.
  induction Hall as [|q ratings Hq Hall IH];
    intros st e h He Hst Hwho Heh Hh Hc H0 H5.
  - split; [|split].
    + intros [|x pre] q post Heq; discriminate Heq.
    + exists h. simpl. repeat split; try done. lia.
    + exists e. simpl. by repeat split.
  - pose proof (post_feedback_succeeds req_user id q None now st e hid h
                  He Hst Hwho Heh Hh Hq Hc H0 H5) as Hrun.
    destruct (newAvg_bounds (h_rating h) q) as [Hlo Hhi]; try done.
    set (e1 := mkEmergency (patient e) (requestedBy e) (e_status e)
                 (e_ambulance e) (e_hospital e) (e_route e) (timeline e)
                 (Some (mkFeedback q None now)) (e_payment e)) in *.
    set (h1 := mkHospital (h_name h) (administrators h) (emergencyCapacity h)
                 (mkRating (newAvg (h_rating h) q) (count (h_rating h) + 1)))
      in *.
    set (st1 := set_hospitals (insert hid h1) (set_emergencies (insert id e1) st))
      in *.
    assert (∀ l, feedback_run req_user id now (q :: l) st =
                 feedback_run req_user id now l st1) as Hstep.
    { intros l. unfold feedback_run. simpl. unfold submit at 2.
      by rewrite Hrun. }
    assert (emergencies st1 !! id = Some e1) as He1 by apply lookup_insert_eq.
    assert (hospitals st1 !! hid = Some h1) as Hh1 by apply lookup_insert_eq.
    destruct (IH st1 e1 h1 He1 Hst Hwho Heh Hh1)
      as (Hacc & (h' & Hh' & Hcount & Hlo' & Hhi' & Hcap') &
          (e' & He' & Hst' & Hfb')); try done.
    { simpl. lia. }
    split; [|split].
    + intros [|x pre] q0 post Heq; simpl in Heq; simplify_eq.
      * simpl. by rewrite Hrun.
      * rewrite Hstep. by apply (Hacc pre q0 post).
    + exists h'. rewrite Hstep. split; [exact Hh'|].
      simpl in Hcount, Hcap'. simpl length.
      repeat split; try done. lia.
    + exists e'. rewrite Hstep. split; [exact He'|]. split; [exact Hst'|].
      rewrite Hfb', last_cons. by destruct (last ratings).
Qed.

Lemma repeated_feedback_accepted_witness :
  let st := scenario_completed in
  let h := restored (taken sample_hospital) in
  let st' := feedback_run patient_u "e1" 9 [4%Q; 5%Q; 3%Q] st in
  succeeded (post_feedback patient_u "e1" (Some 5%Q) None 9
               (feedback_run patient_u "e1" 9 [4%Q] st)) ∧
  (∃ h', hospitals st' !! "h1" = Some h' ∧
         count (h_rating h') = count (h_rating h) + Z.of_nat 3 ∧
         (0 <= average (h_rating h'))%Q ∧ (average (h_rating h') <= 5)%Q ∧
         emergencyCapacity h' = emergencyCapacity h) ∧
  (∃ e', emergencies st' !! "e1" = Some e' ∧ e_status e' = completed ∧
         fb_rating <$> feedback e' = Some 3%Q).
Proof.
  intros st h st'.
  assert (Forall rating_in_range [4%Q; 5%Q; 3%Q]) as Hall
    by (repeat constructor; vm_compute; discriminate).
  assert (emergencies st !! "e1" = Some (emergency_at "e1" st)) as He
    by (vm_compute; reflexivity).
  assert (e_status (emergency_at "e1" st) = completed) as Hst
    by (vm_compute; reflexivity).
  assert (patient (emergency_at "e1" st) = u_id patient_u) as Hwho
    by (vm_compute; reflexivity).
  assert (e_hospital (emergency_at "e1" st) = Some "h1") as Heh
    by (vm_compute; reflexivity).
  assert (hospitals st !! "h1" = Some h) as Hh by (vm_compute; reflexivity).
  assert (0 ≤ count (h_rating h)) as Hc by (vm_compute; discriminate).
  assert (0 <= average (h_rating h))%Q as H0 by (vm_compute; discriminate).
  assert (average (h_rating h) <= 5)%Q as H5 by (vm_compute; discriminate).
  destruct (repeated_feedback_accepted patient_u "e1" 9 [4%Q; 5%Q; 3%Q] st
              (emergency_at "e1" st) "h1" h He Hst (or_introl Hwho) Heh Hh
              Hc H0 H5 Hall) as (Hacc & Hhosp & Hem).
  split; [exact (Hacc [4%Q] 5%Q [3%Q] eq_refl)|].
  split; [exact Hhosp|exact Hem].
Defined.

(** *** Repeated refunds *)

Lemma post_refund_succeeds req_user id a reason now st p :
  u_role req_user = admin → payments st !! id = Some p →
  p_status p = pay_completed → (0 < a)%Q → (a <= p_amount p)%Q →
  post_refund req_user id (Some a) reason now st =
    (set_payments (insert id (refunded_payment p a reason now)) st,
     Ok (refunded_payment p a reason now)).
Proof.
  intros Hadm Hp Hst Hpos Hle.
  unfold post_refund. unfold_handler.
  rewrite (bool_decide_eq_true_2 _ Hadm). simpl. rewrite Hp. simpl.
  rewrite (bool_decide_eq_true_2 _ Hst). simpl.
  assert (Qeq_bool a 0 || Qle_bool a 0 || Qltb (p_amount p) a = false) as ->.
  { apply orb_false_iff. split; [apply orb_false_iff; split|].
    - destruct (Qeq_bool a 0) eqn:Hz; [|done].
      apply Qeq_bool_iff in Hz. rewrite Hz in Hpos. by apply Qlt_irrefl in Hpos.
    - destruct (Qle_bool a 0) eqn:Hz; [|done].
      apply Qle_bool_iff in Hz. by apply Qlt_not_le in Hpos.
    - by apply Qltb_false. }
  done.
Qed.

(** X7.  Refunds are not added up: after a successful partial refund the
    payment is still [completed], and an administrator's further refund of
    any amount up to the original one (even the full amount) succeeds; the
    payment then records only the last refund. *)
Theorem partial_refund_keeps_refundable
    u1 id a reason1 t1 st p u2 b reason2 t2 :
  u_role u1 = admin → u_role u2 = admin →
  payments st !! id = Some p → p_status p = pay_completed →
  (0 < a)%Q → (a < p_amount p)%Q →
  (0 < b)%Q → (b <= p_amount p)%Q →
  let st1 := (post_refund u1 id (Some a) reason1 t1 st).1 in
  let res := post_refund u2 id (Some b) reason2 t2 st1 in
  payment_status_at id st1 = Some pay_completed ∧
  succeeded res ∧
  ∃ p', payments res.1 !! id = Some p' ∧
        p_amount p' = p_amount p ∧
        r_amount <$> p_refund p' = Some b ∧
        p_status p' = (if Qeq_bool b (p_amount p) then pay_refunded
                       else pay_completed).
Proof.
  intros Hadm1 Hadm2 Hp Hst Ha0 Ha Hb0 Hb st1 res.
  assert (st1 = set_payments (insert id (refunded_payment p a reason1 t1)) st)
    as Hst1.
  { unfold st1. rewrite (post_refund_succeeds u1 id a reason1 t1 st p); try done.
    by apply Qlt_le_weak. }
  assert (Qeq_bool a (p_amount p) = false) as Hneq.
  { destruct (Qeq_bool a (p_amount p)) eqn:Heq; [|done].
    apply Qeq_bool_iff in Heq. rewrite Heq in Ha. by apply Qlt_irrefl in Ha. }
  clearbody st1. subst st1. unfold res.
  rewrite (post_refund_succeeds u2 id b reason2 t2 _
             (refunded_payment p a reason1 t1)); try done.
  - unfold payment_status_at. simpl. rewrite lookup_insert_eq. simpl.
    rewrite Hneq. split; [done|]. split; [done|].
    eexists. split; [apply lookup_insert_eq|]. done.
  - simpl. apply lookup_insert_eq.
  - simpl. by rewrite Hneq.
Qed.

Lemma partial_refund_keeps_refundable_witness :
  let st1 := (post_refund admin_r "p1" (Some 40%Q) None 10 scenario_paid).1 in
  let res := post_refund admin_r "p1" (Some 100%Q) None 11 st1 in
  payment_status_at "p1" st1 = Some pay_completed ∧
  succeeded res ∧
  ∃ p', payments res.1 !! "p1" = Some p' ∧
        p_amount p' = p_amount sample_payment ∧
        r_amount <$> p_refund p' = Some 100%Q ∧
        p_status p' = (if Qeq_bool 100 (p_amount sample_payment)
                       then pay_refunded else pay_completed).
Proof.
  apply (partial_refund_keeps_refundable admin_r "p1" 40%Q None 10
           scenario_paid sample_payment admin_r 100%Q None 11);
    try reflexivity; vm_compute; discriminate.
Defined.

(** * Properties of the further routes *)

Lemma sent_inv {A} (res : Store * outcome A) :
  sent res → ∃ a, res = (res.1, Sent a).
Proof. destruct res as [st [a|e]]; simpl; [eauto|done]. Qed.

(** *** The capacity route *)

Lemma put_capacity_run req_user id req_total req_available st :
  put_capacity req_user id req_total req_available st =
  if bool_decide (req_total = None) && bool_decide (req_available = None)
  then (st, Failed (mkHttpError 400 "Total or available capacity must be provided"))
  else
    match hospitals st !! id with
    | None => (st, Failed (mkHttpError 404 "Hospital not found"))
    | Some h =>
        if bool_decide (u_role req_user = admin) || administers req_user h
        then
          let t := default (total (emergencyCapacity h)) req_total in
          let a := default (cap_available (emergencyCapacity h)) req_available in
          (set_hospitals
             (insert id (with_capacity (mkCapacity t (Z.min a t)) h)) st,
           Sent (mkCapacity t (Z.min a t)))
        else (st, Failed (mkHttpError 403 "Not authorized to update hospital capacity"))
    end.
Proof.
  unfold put_capacity. unfold_route.
  destruct (bool_decide (req_total = None) && bool_decide (req_available = None));
    simpl; [done|].
  destruct (hospitals st !! id) as [h|]; simpl; [|done].
  destruct (bool_decide (u_role req_user = admin)), (administers req_user h);
    simpl; try done.
  all: case_bool_decide; simpl.
  all: try (rewrite Z.min_r by lia; done).
  all: rewrite Z.min_l by lia; done.
Qed.

(** X8.  A successful capacity update stores the requested total and the
    requested available capacity (each defaulting to the stored value),
    with available cut down to the total; it sets no lower bound, so the
    stored capacity satisfies [0 <= available <= total] exactly when the
    resulting total and the requested (or kept) available value are not
    negative.  Nothing else of the hospital changes. *)
Theorem capacity_update_clamps req_user id req_total req_available st h :
  hospitals st !! id = Some h →
  let res := put_capacity req_user id req_total req_available st in
  let t := default (total (emergencyCapacity h)) req_total in
  let a := default (cap_available (emergencyCapacity h)) req_available in
  sent res →
  ∃ h', hospitals res.1 !! id = Some h' ∧
        res.2 = Sent (emergencyCapacity h') ∧
        total (emergencyCapacity h') = t ∧
        cap_available (emergencyCapacity h') = Z.min a t ∧
        cap_available (emergencyCapacity h') ≤ total (emergencyCapacity h') ∧
        (capacity_ok h' ↔ 0 ≤ a ∧ 0 ≤ t) ∧
        h_name h' = h_name h ∧ administrators h' = administrators h ∧
        h_rating h' = h_rating h.
Proof.
  intros Hh res t a. unfold res. rewrite put_capacity_run, Hh.
  destruct (bool_decide (req_total = None) && bool_decide (req_available = None));
    [done|].
  destruct (bool_decide (u_role req_user = admin) || administers req_user h);
    [|done].
  intros _. fold t a. simpl. rewrite lookup_insert_eq.
  eexists. split; [done|]. simpl. repeat split; try done; try lia.
  - unfold capacity_ok in *. simpl in *. lia.
  - unfold capacity_ok in *. simpl in *. lia.
  - unfold capacity_ok. simpl. lia.
  - unfold capacity_ok. simpl. lia.
Qed.

Lemma capacity_update_clamps_witness :
  let res := put_capacity admin_r "h1" (Some 3) (Some 7) (scenario pending) in
  ∃ h', hospitals res.1 !! "h1" = Some h' ∧
        res.2 = Sent (emergencyCapacity h') ∧
        total (emergencyCapacity h') = 3 ∧
        cap_available (emergencyCapacity h') = Z.min 7 3 ∧
        cap_available (emergencyCapacity h') ≤ total (emergencyCapacity h') ∧
        (capacity_ok h' ↔ 0 ≤ 7 ∧ 0 ≤ 3) ∧
        h_name h' = h_name sample_hospital ∧
        administrators h' = administrators sample_hospital ∧
        h_rating h' = h_rating sample_hospital.
Proof.
  apply (capacity_update_clamps admin_r "h1" (Some 3) (Some 7)
           (scenario pending) sample_hospital).
  - reflexivity.
  - vm_compute. exact I.
Defined.

(** X9.  Only an administrator, or a hospital administrator listed for the
    hospital, can change its capacity: for an existing hospital and a
    request that carries a value, the update succeeds exactly for these
    callers, and any other caller gets 403 with the store unchanged.  A
    request with neither value gets 400 whoever sends it. *)
Theorem capacity_update_authorization req_user id req_total req_available st h :
  hospitals st !! id = Some h →
  let res := put_capacity req_user id req_total req_available st in
  let allowed :=
    u_role req_user = admin ∨
    (u_role req_user = hospital_admin ∧ u_id req_user ∈ administrators h) in
  (req_total = None ∧ req_available = None →
   failed_with 400 res ∧ res.1 = st) ∧
  (req_total ≠ None ∨ req_available ≠ None →
   (sent res ↔ allowed) ∧ (¬ allowed → failed_with 403 res ∧ res.1 = st)).
Proof.
  intros Hh res allowed. unfold res. rewrite put_capacity_run, Hh. split.
  - intros [-> ->]. simpl. by split.
  - intros Hsome.
    assert (bool_decide (req_total = None) && bool_decide (req_available = None)
            = false) as ->.
    { apply andb_false_iff.
      destruct Hsome as [H|H]; [left|right]; by apply bool_decide_eq_false_2. }
    assert (bool_decide (u_role req_user = admin) || administers req_user h
            = true ↔ allowed) as Hiff.
    { unfold allowed, administers.
      rewrite orb_true_iff, andb_true_iff, !bool_decide_eq_true. done. }
    destruct (bool_decide (u_role req_user = admin) || administers req_user h).
    + split; [|intros Hn; destruct Hn; by apply Hiff]. simpl.
      split; [intros _; by apply Hiff|done].
    + split; [|by intros _]. simpl.
      split; [done|]. intros Ha. by apply Hiff in Ha.
Qed.

Lemma capacity_update_authorization_witness :
  let res := put_capacity driver_d "h1" (Some 9) None (scenario pending) in
  failed_with 403 res ∧ res.1 = scenario pending.
Proof.
  intros res.
  destruct (capacity_update_authorization driver_d "h1" (Some 9) None
              (scenario pending) sample_hospital eq_refl) as [_ Hsome].
  destruct (Hsome ltac:(by left)) as [_ Hdenied].
  apply Hdenied. intros [Hadm|[Hha _]]; discriminate.
Defined.

(** *** Hospital administrators *)

Lemma otherHospitals_zero hid uid st :
  otherHospitals hid uid st = 0%nat ↔
  ∀ hid' h', hospitals st !! hid' = Some h' → hid' ≠ hid →
             uid ∉ administrators h'.
Proof.
  unfold otherHospitals. rewrite map_size_empty_iff, map_empty_filter.
  unfold map_Forall. split.
  - intros H hid' h' Hh Hne Hin. apply (H hid' h' Hh). by split.
  - intros H hid' h' Hh [Hne Hin]. simpl in *. by apply (H hid' h' Hh).
Qed.

Lemma otherHospitals_ext hid uid st1 st2 :
  hospitals st1 = hospitals st2 →
  otherHospitals hid uid st1 = otherHospitals hid uid st2.
Proof. unfold otherHospitals. by intros ->. Qed.

Lemma demote_if_orphan_run hid x st :
  demote_if_orphan hid x st =
  (if bool_decide (otherHospitals hid x st = 0%nat)
   then set_users (alter (with_role user) x) st else st, Sent tt).
Proof. unfold demote_if_orphan. unfold_route. by case_bool_decide. Qed.

Lemma forEach_cons {A} (x : A) l f st :
  forEach (x :: l) f st =
  match f x st with
  | (st', Sent _) => forEach l f st'
  | (st', Failed e) => (st', Failed e)
  end.
Proof. done. Qed.

Lemma forEach_demote hid l st :
  ∃ st', forEach l (demote_if_orphan hid) st = (st', Sent tt) ∧
         hospitals st' = hospitals st ∧ ambulances st' = ambulances st ∧
         emergencies st' = emergencies st ∧ payments st' = payments st ∧
         ∀ uid, users st' !! uid =
                if bool_decide (uid ∈ l ∧ otherHospitals hid uid st = 0%nat)
                then with_role user <$> users st !! uid
                else users st !! uid.
Proof.
  revert st. induction l as [|x l IH]; intros st.
  - exists st. repeat split; try done.
    all: intros uid; rewrite bool_decide_eq_false_2; [done|].
    all: intros [Hin _]; by apply elem_of_nil in Hin.
  - rewrite forEach_cons, demote_if_orphan_run.
    destruct (bool_decide (otherHospitals hid x st = 0%nat)) eqn:Hx.
    + apply bool_decide_eq_true in Hx.
      destruct (IH (set_users (alter (with_role user) x) st))
        as (st' & -> & Hh & Ha & He & Hp & Hu).
      exists st'. repeat split; try done. intros uid. rewrite Hu. simpl.
      rewrite (otherHospitals_ext hid uid _ st) by done.
      destruct (decide (uid = x)) as [->|Hne].
      * rewrite lookup_alter_eq.
        rewrite (bool_decide_eq_true_2 (x ∈ x :: l ∧ _)) by (split; [left|done]).
        case_bool_decide; [|done].
        destruct (users st !! x); simpl; done.
      * rewrite lookup_alter_ne by done.
        rewrite (bool_decide_ext (uid ∈ l ∧ otherHospitals hid uid st = 0%nat)
                   (uid ∈ x :: l ∧ otherHospitals hid uid st = 0%nat)); [done|].
        rewrite elem_of_cons. tauto.
    + apply bool_decide_eq_false in Hx.
      destruct (IH st) as (st' & -> & Hh & Ha & He & Hp & Hu).
      exists st'. repeat split; try done. intros uid. rewrite Hu.
      destruct (decide (uid = x)) as [->|Hne].
      * rewrite !bool_decide_eq_false_2; [done| |]; intros [_ ?]; done.
      * rewrite (bool_decide_ext (uid ∈ l ∧ otherHospitals hid uid st = 0%nat)
                   (uid ∈ x :: l ∧ otherHospitals hid uid st = 0%nat)); [done|].
        rewrite elem_of_cons. tauto.
Qed.

Lemma otherHospitals_nonzero hid uid st :
  otherHospitals hid uid st ≠ 0%nat →
  ∃ hid' h', hid' ≠ hid ∧ hospitals st !! hid' = Some h' ∧
             uid ∈ administrators h'.
Proof.
  unfold otherHospitals. intros Hn.
  apply map_size_ne_0_lookup in Hn as (hid' & h' & Hl).
  apply map_lookup_filter_Some in Hl as (Hl & Hne & Hin).
  by exists hid', h'.
Qed.

Lemma delete_hospital_run req_user id st h :
  u_role req_user = admin → hospitals st !! id = Some h →
  ∃ st', delete_hospital req_user id st = (st', Sent tt) ∧
         hospitals st' = delete id (hospitals st) ∧
         ambulances st' = ambulances st ∧ emergencies st' = emergencies st ∧
         payments st' = payments st ∧
         ∀ uid, users st' !! uid =
                if bool_decide (uid ∈ administrators h ∧
                                otherHospitals id uid st = 0%nat)
                then with_role user <$> users st !! uid
                else users st !! uid.
Proof.
  intros Hadm Hh. unfold delete_hospital. unfold_route.
  rewrite (bool_decide_eq_true_2 _ Hadm). simpl. rewrite Hh. simpl.
  destruct (forEach_demote id (administrators h) st)
    as (st1 & -> & Hh1 & Ha1 & He1 & Hp1 & Hu1).
  eexists. split; [done|]. simpl. by rewrite Hh1.
Qed.

Lemma delete_hospital_rejected req_user id st :
  u_role req_user ≠ admin ∨ hospitals st !! id = None →
  (delete_hospital req_user id st).1 = st ∧
  failed_with (if decide (u_role req_user = admin) then 404 else 403)
    (delete_hospital req_user id st).
Proof.
  intros Hbad. unfold delete_hospital. unfold_route.
  destruct (decide (u_role req_user = admin)) as [Hadm|Hadm].
  - rewrite (bool_decide_eq_true_2 _ Hadm). simpl.
    destruct Hbad as [?|Hnone]; [done|]. by rewrite Hnone.
  - by rewrite (bool_decide_eq_false_2 _ Hadm).
Qed.

(** X10.  Deleting a hospital, as an administrator, removes that hospital
    and nothing else from the hospital collection, and gives the role
    [user] to every stored user it lists as administrator who administers
    no other hospital, whatever the role was; a user who is not listed, or
    who administers another hospital, is left as is. *)
Theorem hospital_delete_effect req_user id st h :
  u_role req_user = admin → hospitals st !! id = Some h →
  let res := delete_hospital req_user id st in
  sent res ∧
  hospitals res.1 = delete id (hospitals st) ∧
  ambulances res.1 = ambulances st ∧ emergencies res.1 = emergencies st ∧
  (∀ uid u, users st !! uid = Some u →
     (uid ∈ administrators h →
      (∀ hid' h', hospitals st !! hid' = Some h' → hid' ≠ id →
                  uid ∉ administrators h') →
      users res.1 !! uid = Some (with_role user u)) ∧
     (uid ∉ administrators h ∨
      (∃ hid' h', hid' ≠ id ∧ hospitals st !! hid' = Some h' ∧
                  uid ∈ administrators h') →
      users res.1 !! uid = Some u)) ∧
  (∀ uid, users st !! uid = None → users res.1 !! uid = None).
Proof.
  intros Hadm Hh res. unfold res.
  destruct (delete_hospital_run req_user id st h Hadm Hh)
    as (st' & -> & Hh' & Ha' & He' & _ & Hu').
  simpl. repeat split; try done.
  - intros Hin Hnone. rewrite Hu', bool_decide_eq_true_2, H; [done|].
    split; [done|]. by apply otherHospitals_zero.
  - intros Hkeep. rewrite Hu', bool_decide_eq_false_2; [done|].
    intros [Hin Hzero]. destruct Hkeep as [?|(hid' & h' & Hne & Hh2 & Hin2)]; [done|].
    by apply (proj1 (otherHospitals_zero id uid st) Hzero hid' h').
  - intros uid Hnone. rewrite Hu', Hnone. by case_bool_decide.
Qed.

Lemma hospital_delete_effect_witness :
  let res := delete_hospital admin_r "h1" scenario_admins in
  sent res ∧
  hospitals res.1 !! "h1" = None ∧
  users res.1 !! "ha" = Some (with_role user admin_a) ∧
  users res.1 !! "hb" = Some admin_b.
Proof.
  intros res.
  destruct (hospital_delete_effect admin_r "h1" scenario_admins
              (with_administrators ["ha"; "hb"] sample_hospital)
              eq_refl eq_refl) as (Hsent & Hh & _ & _ & Hu & _).
  split; [exact Hsent|]. split.
  - fold res in Hh. rewrite Hh. apply lookup_delete_eq.
  - split.
    + apply (Hu "ha" admin_a eq_refl).
      * simpl. left.
      * intros hid' h' Hh' Hne.
        change (hospitals scenario_admins) with
          (<["h1":=with_administrators ["ha"; "hb"] sample_hospital]>
             (<["h2":=with_administrators ["hb"] sample_hospital]>
                (∅ : gmap oid Hospital))) in Hh'.
        rewrite lookup_insert_ne in Hh' by done.
        destruct (decide (hid' = "h2")) as [->|Hne2].
        -- rewrite lookup_insert_eq in Hh'. injection Hh' as <-. simpl.
           intros Hin. apply list_elem_of_singleton in Hin. discriminate.
        -- rewrite lookup_insert_ne, lookup_empty in Hh' by done. discriminate.
    + apply (Hu "hb" admin_b eq_refl). right.
      exists "h2", (with_administrators ["hb"] sample_hospital).
      split; [discriminate|]. split; [reflexivity|]. simpl. left.
Defined.

(** X11.  Deleting a hospital keeps the administrators backed: when every
    user with role [hospital_admin] administers some hospital before the
    request, the same is true after it, whether the request succeeds or
    not. *)
Theorem hospital_delete_keeps_admins_backed req_user id st :
  admins_backed st →
  admins_backed (delete_hospital req_user id st).1.
Proof.
  intros Hinv.
  destruct (decide (u_role req_user = admin)) as [Hadm|Hadm];
    [|by rewrite (proj1 (delete_hospital_rejected req_user id st (or_introl Hadm)))].
  destruct (hospitals st !! id) as [h|] eqn:Hh;
    [|by rewrite (proj1 (delete_hospital_rejected req_user id st (or_intror Hh)))].
  destruct (delete_hospital_run req_user id st h Hadm Hh)
    as (st' & -> & Hh' & _ & _ & _ & Hu').
  simpl. intros uid u' Hu Hrole. rewrite Hu' in Hu.
  case_bool_decide as Hdem.
  - destruct (users st !! uid); simplify_eq/=.
  - destruct (Hinv uid u' Hu Hrole) as (hid0 & h0 & Hh0 & Hin0).
    destruct (decide (hid0 = id)) as [->|Hne].
    + simplify_eq.
      destruct (decide (otherHospitals id uid st = 0%nat)) as [Hz|Hnz];
        [by destruct Hdem|].
      destruct (otherHospitals_nonzero id uid st Hnz) as (hid1 & h1 & Hne1 & Hh1 & Hin1).
      exists hid1, h1. split; [|done]. rewrite Hh'. by rewrite lookup_delete_ne.
    + exists hid0, h0. split; [|done]. rewrite Hh'. by rewrite lookup_delete_ne.
Qed.

Lemma scenario_admins_backed : admins_backed scenario_admins.
Proof.
  intros uid u Hu Hrole.
  change (users scenario_admins) with
    (<["ha":=admin_a]> (<["hb":=admin_b]> sample_users)) in Hu.
  destruct (decide (uid = "ha")) as [->|Ha].
  { exists "h1", (with_administrators ["ha"; "hb"] sample_hospital).
    split; [reflexivity|]. simpl. left. }
  destruct (decide (uid = "hb")) as [->|Hb].
  { exists "h2", (with_administrators ["hb"] sample_hospital).
    split; [reflexivity|]. simpl. left. }
  rewrite !lookup_insert_ne in Hu by done. unfold sample_users in Hu.
  repeat (apply lookup_insert_Some in Hu as [[<- <-]|[_ Hu]]; [discriminate|]).
  by rewrite lookup_empty in Hu.
Qed.

Lemma hospital_delete_keeps_admins_backed_witness :
  admins_backed (delete_hospital admin_r "h1" scenario_admins).1.
Proof.
  apply (hospital_delete_keeps_admins_backed admin_r "h1" scenario_admins).
  exact scenario_admins_backed.
Defined.

(** *** Updating a hospital *)

Lemma size_list_to_set_le (l : list oid) :
  (size (list_to_set l : gset oid) ≤ length l)%nat ∧
  (size (list_to_set l : gset oid) = length l → NoDup l).
Proof.
  induction l as [|x l [IHle IHnd]].
  - rewrite list_to_set_nil, size_empty. split; [done|intros _; constructor].
  - rewrite list_to_set_cons. simpl length.
    destruct (decide (x ∈ l)) as [Hin|Hnin].
    + assert ({[x]} ∪ list_to_set l = (list_to_set l : gset oid)) as ->.
      { apply subseteq_union_1_L. apply singleton_subseteq_l.
        by apply elem_of_list_to_set. }
      split; [lia|]. intros Heq. lia.
    + rewrite size_union, size_singleton.
      * split; [lia|]. intros Heq. constructor; [done|]. apply IHnd. lia.
      * apply disjoint_singleton_l. by rewrite elem_of_list_to_set.
Qed.

Lemma users_among_spec l st :
  users_among l st = length l ↔
  NoDup l ∧ ∀ x, x ∈ l → is_Some (users st !! x).
Proof.
  unfold users_among. rewrite <- size_dom.
  assert (dom (filter (λ kv : oid * User, kv.1 ∈ l) (users st)) =
          list_to_set l ∩ dom (users st)) as ->.
  { apply dom_filter_L. intros i. rewrite elem_of_intersection,
      elem_of_list_to_set, elem_of_dom. unfold is_Some. simpl.
    split; [intros [? [x ?]]; eauto|intros [x [? ?]]; eauto]. }
  destruct (size_list_to_set_le l) as [Hle Hnd].
  split.
  - intros Heq.
    assert (size (list_to_set l ∩ dom (users st)) ≤ size (list_to_set l : gset oid))%nat
      as Hsub by (apply subseteq_size, intersection_subseteq_l).
    assert (list_to_set l ∩ dom (users st) = (list_to_set l : gset oid)) as Hset.
    { apply set_subseteq_size_eq; [apply intersection_subseteq_l|lia]. }
    split; [apply Hnd; lia|].
    intros x Hx. apply elem_of_dom.
    assert (x ∈ list_to_set l ∩ dom (users st)) as Hx'
      by (rewrite Hset; by apply elem_of_list_to_set).
    by apply elem_of_intersection in Hx' as [_ ?].
  - intros [Hnodup Hall].
    assert (list_to_set l ∩ dom (users st) = (list_to_set l : gset oid)) as ->.
    { apply subseteq_intersection_1_L. intros x Hx.
      apply elem_of_list_to_set in Hx. apply elem_of_dom. by apply Hall. }
    by apply size_list_to_set.
Qed.

(** The users after the role changes of an update that names the
    administrators [admins] for a hospital whose administrators were
    [old]. *)
Lemma put_hospital_sent req_user id body st :
  sent (put_hospital req_user id body st) →
  ∃ h h_rest,
    hospitals st !! id = Some h ∧ upd_rest body h = Some h_rest ∧
    (u_role req_user = admin ∨ administers req_user h = true) ∧
    match upd_administrators body with
    | None =>
        users (put_hospital req_user id body st).1 = users st ∧
        hospitals (put_hospital req_user id body st).1 =
          <[id:=h_rest]> (hospitals st)
    | Some admins =>
        u_role req_user = admin ∧ users_among admins st = length admins ∧
        hospitals (put_hospital req_user id body st).1 =
          <[id:=with_administrators admins h_rest]> (hospitals st) ∧
        ∀ uid, users (put_hospital req_user id body st).1 !! uid =
          (λ u, if bool_decide
                     (uid ∈ filter (λ a, a ∉ administrators h) admins)
                then with_role hospital_admin u else u) <$>
          (if bool_decide
                (uid ∈ filter (λ a, a ∉ admins) (administrators h) ∧
                 otherHospitals id uid st = 0%nat)
           then with_role user <$> users st !! uid
           else users st !! uid)
    end.
Proof.
  unfold put_hospital. unfold_route.
  destruct (hospitals st !! id) as [h|] eqn:Hh; simpl; [|done].
  destruct (bool_decide (u_role req_user = admin)) eqn:Hadm; simpl.
  - apply bool_decide_eq_true in Hadm.
    destruct (upd_administrators body) as [admins|] eqn:Hb; simpl.
    + destruct (bool_decide (users_among admins st = length admins)) eqn:Hex;
        simpl; [|done].
      apply bool_decide_eq_true in Hex.
      destruct (forEach_demote id (filter (λ a, a ∉ admins) (administrators h)) st)
        as (st1 & -> & Hh1 & _ & _ & _ & Hu1).
      simpl. rewrite Hh1, Hh.
      destruct (upd_rest body h) as [h_rest|] eqn:Hrest; simpl; [|done].
      intros _. exists h, h_rest. simpl.
      repeat split; try done; [by left|by rewrite Hh1|].
      intros uid. unfold updateMany_role. rewrite map_lookup_imap, Hu1.
      by destruct (if bool_decide _ then _ else _).
    + rewrite Hh. destruct (upd_rest body h) as [h_rest|] eqn:Hrest; simpl; [|done].
      intros _. exists h, h_rest. simpl.
      repeat split; try done. by left.
  - destruct (administers req_user h) eqn:Hha; simpl; [|done].
    destruct (upd_administrators body) as [admins|] eqn:Hb; simpl; [done|].
    rewrite Hh. destruct (upd_rest body h) as [h_rest|] eqn:Hrest; simpl; [|done].
    intros _. exists h, h_rest. simpl.
    repeat split; try done. by right.
Qed.

(** X12.  A hospital update that names administrators is for administrators
    only, and the list must consist of distinct ids of stored users: a
    caller who is not an administrator gets 403, a list with a repeated or
    unknown id gets 400, and in both cases nothing changes.  When the
    update succeeds the hospital has exactly the named administrators and
    every one of them who was not listed before has the role
    [hospital_admin]. *)
Theorem hospital_update_checks_administrators req_user id body st h admins :
  hospitals st !! id = Some h →
  upd_administrators body = Some admins →
  let res := put_hospital req_user id body st in
  (u_role req_user ≠ admin → failed_with 403 res ∧ res.1 = st) ∧
  (u_role req_user = admin →
   ¬ (NoDup admins ∧ ∀ x, x ∈ admins → is_Some (users st !! x)) →
   failed_with 400 res ∧ res.1 = st) ∧
  (sent res →
   u_role req_user = admin ∧ NoDup admins ∧
   (∀ x, x ∈ admins → is_Some (users st !! x)) ∧
   ∃ h', hospitals res.1 !! id = Some h' ∧ administrators h' = admins ∧
         ∀ x, x ∈ admins → x ∉ administrators h →
              u_role <$> users res.1 !! x = Some hospital_admin).
Proof.
  intros Hh Hb res. split; [|split].
  - intros Hadm. unfold res, put_hospital. unfold_route.
    rewrite Hh. simpl. rewrite (bool_decide_eq_false_2 _ Hadm). simpl.
    destruct (administers req_user h); simpl; [|done].
    by rewrite Hb.
  - intros Hadm Hbad. unfold res, put_hospital. unfold_route.
    rewrite Hh. simpl. rewrite (bool_decide_eq_true_2 _ Hadm). simpl.
    rewrite Hb. simpl.
    rewrite bool_decide_eq_false_2; [done|].
    intros Heq. by apply Hbad, users_among_spec.
  - intros Hsent. unfold res in *.
    destruct (put_hospital_sent req_user id body st Hsent)
      as (h0 & h_rest & Hh0 & _ & _ & Hcase).
    rewrite Hb in Hcase. destruct Hcase as (Hadm & Hex & Hhs & Hus).
    simplify_eq. apply users_among_spec in Hex as [Hnd Hall].
    repeat split; try done.
    exists (with_administrators admins h_rest).
    split; [by rewrite Hhs, lookup_insert_eq|]. split; [done|].
    intros x Hx Hnew. rewrite Hus.
    rewrite (bool_decide_eq_true_2 (x ∈ filter _ admins))
      by (by apply list_elem_of_filter).
    rewrite bool_decide_eq_false_2.
    + destruct (Hall x Hx) as [u ->]. done.
    + intros [Hf _]. apply list_elem_of_filter in Hf as [_ ?]. done.
Qed.

Lemma hospital_update_checks_administrators_witness :
  let body := mkHospitalUpdate (Some ["hb"; "hb"]) Some in
  let res := put_hospital admin_r "h1" body scenario_admins in
  failed_with 400 res ∧ res.1 = scenario_admins.
Proof.
  intros body res.
  destruct (hospital_update_checks_administrators admin_r "h1" body
              scenario_admins (with_administrators ["ha"; "hb"] sample_hospital)
              ["hb"; "hb"] eq_refl eq_refl) as (_ & Hbad & _).
  apply (Hbad eq_refl). intros [Hnd _].
  apply NoDup_cons_1_1 in Hnd. apply Hnd. left.
Defined.

(** X13.  A successful hospital update keeps the administrators backed,
    as long as the list of administrators is changed only through the
    top-level key [administrators] of the body: when every user with role
    [hospital_admin] administers some hospital before the request, the same
    is true after it.  (The handler guards and follows up only that key;
    a body that reaches the list through another key is stored as it is,
    with no change of roles.) *)
Theorem hospital_update_keeps_admins_backed req_user id body st :
  admins_backed st →
  (upd_administrators body = None →
   ∀ h h', upd_rest body h = Some h' → administrators h' = administrators h) →
  sent (put_hospital req_user id body st) →
  admins_backed (put_hospital req_user id body st).1 ∧
  (upd_administrators body = None →
   users (put_hospital req_user id body st).1 = users st).
Proof.
  intros Hinv Hkeep Hsent.
  destruct (put_hospital_sent req_user id body st Hsent)
    as (h & h_rest & Hh & Hrest & _ & Hcase).
  destruct (upd_administrators body) as [admins|].
  - split; [|discriminate].
    destruct Hcase as (_ & _ & Hhs & Hus).
    intros uid u' Hu Hrole. rewrite Hus in Hu. rewrite Hhs.
    destruct (decide (uid ∈ admins)) as [Hin|Hnin].
    { exists id, (with_administrators admins h_rest).
      by rewrite lookup_insert_eq. }
    rewrite (bool_decide_eq_false_2 (uid ∈ filter _ admins)) in Hu
      by (intros Hf; by apply list_elem_of_filter in Hf as [_ ?]).
    case_bool_decide as Hdem.
    + destruct (users st !! uid); simplify_eq/=.
    + assert (users st !! uid = Some u') as Hu0
        by (destruct (users st !! uid); by simplify_eq/=).
      destruct (Hinv uid u' Hu0 Hrole) as (hid0 & h0 & Hh0 & Hin0).
      destruct (decide (hid0 = id)) as [->|Hne].
      * simplify_eq.
        destruct (decide (otherHospitals id uid st = 0%nat)) as [Hz|Hnz].
        { destruct Hdem. split; [|done]. by apply list_elem_of_filter. }
        destruct (otherHospitals_nonzero id uid st Hnz)
          as (hid1 & h1 & Hne1 & Hh1 & Hin1).
        exists hid1, h1. by rewrite lookup_insert_ne.
      * exists hid0, h0. by rewrite lookup_insert_ne.
  - destruct Hcase as (Hus & Hhs). split; [|done].
    intros uid u' Hu Hrole. rewrite Hus in Hu. rewrite Hhs.
    destruct (Hinv uid u' Hu Hrole) as (hid0 & h0 & Hh0 & Hin0).
    destruct (decide (hid0 = id)) as [->|Hne].
    + simplify_eq. exists id, h_rest.
      rewrite lookup_insert_eq. split; [done|].
      by rewrite (Hkeep eq_refl h h_rest Hrest).
    + exists hid0, h0. by rewrite lookup_insert_ne.
Qed.

Lemma hospital_update_keeps_admins_backed_witness :
  let body := mkHospitalUpdate (Some ["hb"; "u2"]) Some in
  let res := put_hospital admin_r "h1" body scenario_admins in
  let body2 :=
    mkHospitalUpdate None (λ h, Some (with_capacity (mkCapacity 9 4) h)) in
  let res2 := put_hospital admin_a "h1" body2 scenario_admins in
  (sent res ∧ admins_backed res.1 ∧
   u_role <$> users res.1 !! "ha" = Some user ∧
   u_role <$> users res.1 !! "u2" = Some hospital_admin) ∧
  (sent res2 ∧ admins_backed res2.1 ∧ users res2.1 = users scenario_admins).
Proof.
  intros body res body2 res2. split.
  - assert (sent res) as Hsent by (vm_compute; exact I).
    split; [exact Hsent|]. split.
    + apply (hospital_update_keeps_admins_backed admin_r "h1" body
               scenario_admins).
      * exact scenario_admins_backed.
      * discriminate.
      * exact Hsent.
    + split; vm_compute; reflexivity.
  - assert (sent res2) as Hsent by (vm_compute; exact I).
    split; [exact Hsent|].
    destruct (hospital_update_keeps_admins_backed admin_a "h1" body2
                scenario_admins scenario_admins_backed) as [Hb Hu].
    + intros _ h h' [= <-]. reflexivity.
    + exact Hsent.
    + split; [exact Hb|exact (Hu eq_refl)].
Defined.

(** *** Reading an emergency *)

Lemma get_emergency_run req_user id st e :
  emergencies st !! id = Some e →
  is_Some (users st !! patient e) →
  is_Some (users st !! requestedBy e) →
  is_Some (users st !! u_id req_user) →
  get_emergency req_user id st =
  if bool_decide (u_role req_user = admin) ||
     bool_decide (patient e = u_id req_user) ||
     bool_decide (requestedBy e = u_id req_user) ||
     is_driver_of req_user e st ||
     match e_hospital e ≫= (hospitals st !!.) with
     | Some h => administers req_user h
     | None => false
     end
  then (st, Sent e)
  else (st, Failed (mkHttpError 403 "Not authorized to access this emergency")).
Proof.
  intros He [p Hp] [q Hq] [c Hc].
  unfold get_emergency, is_driver_of. unfold_route.
  rewrite He. simpl. rewrite Hp. simpl. rewrite Hq. simpl.
  destruct (bool_decide (u_role req_user = admin)); simpl; [done|].
  destruct (bool_decide (patient e = u_id req_user)); simpl; [done|].
  destruct (bool_decide (requestedBy e = u_id req_user)); simpl; [done|].
  destruct (e_hospital e) as [hid|]; simpl.
  1: destruct (hospitals st !! hid) as [h|]; simpl.
  1: destruct (administers req_user h); simpl.
  all: destruct (e_ambulance e) as [aid|]; simpl; [|done].
  all: destruct (ambulances st !! aid) as [a|]; simpl; [|done].
  all: destruct (a_driver a) as [d|]; simpl; [|done].
  all: destruct (decide (d = u_id req_user)) as [->|Hne].
  all: try (rewrite Hc; by destruct (bool_decide _)).
  all: rewrite (bool_decide_eq_false_2 (Some d = _)) by congruence.
  all: by destruct (users st !! d).
Qed.

(** X14.  For an emergency whose patient and requester are stored users,
    and a caller who is a stored user, reading the emergency is allowed
    exactly for an administrator, the patient, the requester, the driver of
    its ambulance and a hospital administrator of its hospital; anyone else
    gets 403.  Reading never changes the store, and every caller whom the
    status handler would authorise for one of its checked statuses can read
    the emergency. *)
Theorem emergency_read_access req_user id st e :
  emergencies st !! id = Some e →
  is_Some (users st !! patient e) →
  is_Some (users st !! requestedBy e) →
  is_Some (users st !! u_id req_user) →
  let res := get_emergency req_user id st in
  let allowed :=
    u_role req_user = admin ∨ patient e = u_id req_user ∨
    requestedBy e = u_id req_user ∨ is_driver_of req_user e st = true ∨
    (∃ hid h, e_hospital e = Some hid ∧ hospitals st !! hid = Some h ∧
              administers req_user h = true) in
  (sent res ↔ allowed) ∧
  (¬ allowed → failed_with 403 res) ∧
  res.1 = st ∧
  (∀ s, guarded s = true → authorized_for req_user e s st = true → sent res).
Proof.
  intros He Hp Hq Hc res allowed.
  assert (bool_decide (u_role req_user = admin) ||
          bool_decide (patient e = u_id req_user) ||
          bool_decide (requestedBy e = u_id req_user) ||
          is_driver_of req_user e st ||
          match e_hospital e ≫= (hospitals st !!.) with
          | Some h => administers req_user h
          | None => false
          end = true ↔ allowed) as Hcan.
  { unfold allowed. rewrite !orb_true_iff, !bool_decide_eq_true.
    assert (match e_hospital e ≫= (hospitals st !!.) with
            | Some h => administers req_user h
            | None => false
            end = true ↔
            ∃ hid h, e_hospital e = Some hid ∧ hospitals st !! hid = Some h ∧
                     administers req_user h = true) as ->.
    { destruct (e_hospital e) as [hid|]; simpl.
      - destruct (hospitals st !! hid) as [h|] eqn:Hh; simpl.
        + split; [intros ?; by exists hid, h|].
          intros (hid' & h' & ? & ? & ?). by simplify_eq.
        + split; [done|]. intros (hid' & h' & ? & ? & ?). by simplify_eq.
      - split; [done|]. intros (hid' & h' & ? & ? & ?). done. }
    tauto. }
  unfold res. rewrite (get_emergency_run req_user id st e) by done.
  destruct (bool_decide (u_role req_user = admin) || _ || _ || _ || _) eqn:Hb.
  - assert allowed as Hall by (by apply Hcan).
    repeat split; try done.
  - assert (¬ allowed) as Hnall by (intros Ha; apply Hcan in Ha; done).
    repeat split; try done.
    intros s Hg Hauth. exfalso. apply Hnall. unfold allowed.
    unfold authorized_for in Hauth.
    destruct s; try (by vm_compute in Hg).
    all: repeat (apply orb_true_iff in Hauth as [Hauth|Hauth]).
    all: try (apply bool_decide_eq_true in Hauth; tauto).
    all: tauto.
Qed.

Lemma emergency_read_access_witness :
  let st := scenario_assigned in
  sent (get_emergency driver_d "e1" st) ∧
  failed_with 403 (get_emergency stranger "e1" st) ∧
  (get_emergency stranger "e1" st).1 = st.
Proof.
  intros st.
  destruct (emergency_read_access driver_d "e1" st (emergency_at "e1" st))
    as (Hiff & _ & _ & _).
  { vm_compute. reflexivity. }
  { eexists. vm_compute. reflexivity. }
  { eexists. vm_compute. reflexivity. }
  { eexists. vm_compute. reflexivity. }
  destruct (emergency_read_access stranger "e1" st (emergency_at "e1" st))
    as (_ & Hden & Hst & _).
  { vm_compute. reflexivity. }
  { eexists. vm_compute. reflexivity. }
  { eexists. vm_compute. reflexivity. }
  { eexists. vm_compute. reflexivity. }
  split; [|split; [|exact Hst]].
  - apply Hiff. right. right. right. left. vm_compute. reflexivity.
  - apply Hden.
    intros [H|[H|[H|[H|(hid & h & _ & _ & H)]]]].
    + discriminate H.
    + vm_compute in H. discriminate H.
    + vm_compute in H. discriminate H.
    + vm_compute in H. discriminate H.
    + unfold administers in H. simpl in H. discriminate H.
Defined.

(** *** Payment status *)

Lemma given_payment_status_name (s : PaymentStatus) :
  given (Some (payment_status_name s)) = Some (payment_status_name s).
Proof. by destruct s. Qed.

Lemma assoc_payment_status_name (s : PaymentStatus) :
  assoc (payment_status_name s) validPaymentStatuses = Some s.
Proof. by destruct s. Qed.

Lemma put_payment_status_run req_user id s txn st p :
  u_role req_user = admin →
  payments st !! id = Some p →
  put_payment_status req_user id (Some (payment_status_name s)) txn st =
  let p' := updated_payment id p s txn in
  let st1 := set_payments (insert id p') st in
  if negb (match given txn with
           | Some t => bool_decide (transactionId_free id t st)
           | None => true
           end)
  then (st, Failed (mkHttpError 500 "MongoServerError"))
  else
    match emergencies st !! p_emergency p with
    | Some e =>
        match assoc (payment_status_name s) emergencyPaymentStatuses with
        | Some ep =>
            (set_emergencies
               (insert (p_emergency p)
                  (with_payment
                     (mkEmergencyPayment ep
                        (or_else txn (ep_transactionId (e_payment e)))) e))
               st1,
             Sent p')
        | None => (st1, Failed (mkHttpError 500 "ValidationError"))
        end
    | None => (st1, Sent p')
    end.
Proof.
  intros Hadm Hp. unfold put_payment_status. unfold_route.
  rewrite (bool_decide_eq_true_2 _ Hadm), given_payment_status_name.
  cbn [negb]. rewrite assoc_payment_status_name, Hp. cbn [fst snd].
  destruct (match given txn with
            | Some t => bool_decide (transactionId_free id t st)
            | None => true
            end); cbn [negb]; [|done].
  cbn [emergencies set_payments].
  destruct (emergencies st !! p_emergency p) as [e|]; [|done].
  by destruct (assoc (payment_status_name s) emergencyPaymentStatuses).
Qed.

(** X15.  An administrator's payment status update saves the payment with
    the requested status (whatever the current one is), the transaction id
    of the request and, for ['completed'], a receipt URL, unless another
    payment already has that transaction id.  It then copies status and
    transaction id to the emergency, whose schema accepts only ['pending']
    among the six payment statuses: the request succeeds exactly when the
    status is ['pending'] or the emergency of the payment is missing, and
    otherwise answers 500 with the payment changed and the emergency not. *)
Theorem payment_status_update_saved_then_rejected req_user id s txn st p :
  u_role req_user = admin →
  payments st !! id = Some p →
  let res := put_payment_status req_user id (Some (payment_status_name s)) txn st in
  (∀ t, given txn = Some t → ¬ transactionId_free id t st →
        failed_with 500 res ∧ res.1 = st) ∧
  ((∀ t, given txn = Some t → transactionId_free id t st) →
   payments res.1 = <[id:=updated_payment id p s txn]> (payments st) ∧
   p_status <$> payments res.1 !! id = Some s ∧
   (sent res ↔ s = pay_pending ∨ emergencies st !! p_emergency p = None) ∧
   (¬ sent res → failed_with 500 res ∧ emergencies res.1 = emergencies st) ∧
   (sent res → ∀ e, emergencies st !! p_emergency p = Some e →
      emergencies res.1 =
        <[p_emergency p:=
            with_payment
              (mkEmergencyPayment ep_pending
                 (or_else txn (ep_transactionId (e_payment e)))) e]>
          (emergencies st)) ∧
   (emergencies st !! p_emergency p = None →
    emergencies res.1 = emergencies st)).
Proof.
  intros Hadm Hp res. unfold res.
  rewrite (put_payment_status_run req_user id s txn st p Hadm Hp). cbv zeta.
  split.
  - intros t Ht Hdup. rewrite Ht.
    rewrite (bool_decide_eq_false_2 _ Hdup). simpl. done.
  - intros Hfree.
    assert (match given txn with
            | Some t => bool_decide (transactionId_free id t st)
            | None => true
            end = true) as ->.
    { destruct (given txn) as [t|]; [|done].
      apply bool_decide_eq_true_2. by apply Hfree. }
    simpl.
    destruct (emergencies st !! p_emergency p) as [e|] eqn:He.
    + destruct s; simpl.
      all: rewrite ?lookup_insert_eq; simpl.
      all: repeat split; try done.
      all: try (by left).
      all: try (by intros [?|?]).
      all: try (intros _ e' [= <-]; done).
      all: try (by intros []).
    + simpl. rewrite lookup_insert_eq. simpl.
      repeat split; try done. by right.
Qed.

Lemma payment_status_update_saved_then_rejected_witness :
  let p := mkPayment "e1" "u1" 100 pay_pending None None None in
  let st := set_payments (insert "p1" p) scenario_completed in
  let res := put_payment_status admin_r "p1"
               (Some (payment_status_name pay_completed)) (Some "TX-1") st in
  failed_with 500 res ∧
  payments res.1 !! "p1" =
    Some (mkPayment "e1" "u1" 100 pay_completed None (Some "TX-1")
            (Some "https://example.com/receipts/p1")) ∧
  emergencies res.1 = emergencies st ∧
  succeeded (post_refund admin_r "p1" (Some 100%Q) None 12 res.1).
Proof.
  intros p st res.
  assert (∀ t, given (Some "TX-1") = Some t → transactionId_free "p1" t st)
    as Hfree.
  { intros t [= <-].
    apply (bool_decide_unpack (transactionId_free "p1" "TX-1" st)).
    vm_compute. exact I. }
  destruct (payment_status_update_saved_then_rejected admin_r "p1"
              pay_completed (Some "TX-1") st p eq_refl eq_refl) as [_ Hmain].
  destruct (Hmain Hfree) as (Hpay & _ & Hiff & Hfail & _).
  assert (¬ sent res) as Hns.
  { intros Hs. destruct (proj1 Hiff Hs) as [Hs'|Hs'].
    - discriminate Hs'.
    - vm_compute in Hs'. discriminate Hs'. }
  destruct (Hfail Hns) as [H500 Hem].
  split; [exact H500|]. split; [|split; [exact Hem|]].
  - unfold res. rewrite Hpay. rewrite lookup_insert_eq. reflexivity.
  - vm_compute. exact I.
Defined.

(** *** Listing emergencies *)

Lemma find_sorted_elem createdAt req_user q st kv :
  kv ∈ find_sorted createdAt req_user q st ↔
  emergencies st !! kv.1 = Some kv.2 ∧
  list_filter createdAt req_user q st kv = true.
Proof.
  unfold find_sorted. rewrite merge_sort_Permutation.
  rewrite list_elem_of_filter. destruct kv as [id e]. simpl.
  rewrite elem_of_map_to_list. tauto.
Qed.

Lemma find_sorted_NoDup createdAt req_user q st :
  NoDup (find_sorted createdAt req_user q st).
Proof.
  unfold find_sorted. rewrite merge_sort_Permutation.
  apply NoDup_filter, NoDup_map_to_list.
Qed.

Lemma find_sorted_sorted createdAt req_user q st :
  StronglySorted (λ x y : oid * Emergency, createdAt y.1 ≤ createdAt x.1)
    (find_sorted createdAt req_user q st).
Proof.
  unfold find_sorted. apply StronglySorted_merge_sort.
  - intros x y z Hxy Hyz. lia.
  - intros x y. lia.
Qed.

Lemma get_emergencies_run createdAt unusual_window req_user q st :
  get_emergencies createdAt unusual_window req_user q st =
  let page := parsed_or (q_page q) 1 in
  let limit := parsed_or (q_limit q) 10 in
  let docs := find_sorted createdAt req_user q st in
  match window unusual_window ((page - 1) * limit) limit with
  | Some w =>
      (st, Sent (mkListResponse (length (take w.2 (drop w.1 docs)))
                   (length docs) page (take w.2 (drop w.1 docs))))
  | None => (st, Failed (mkHttpError 500 "MongoServerError"))
  end.
Proof.
  unfold get_emergencies. unfold_route. cbv zeta.
  by destruct (window unusual_window _ _).
Qed.

(** X16.  The emergency listing is scoped by role: every emergency it
    returns is a stored one; a caller with role [user] only gets
    emergencies of which he is patient or requester, a [driver] only those
    whose ambulance he drives, a [hospital_admin] only those of a hospital
    he administers.  The status and date filters of the query hold for
    every entry as well. *)
Theorem emergency_list_scope createdAt unusual_window req_user q st r id e :
  (get_emergencies createdAt unusual_window req_user q st).2 = Sent r →
  (id, e) ∈ lr_data r →
  emergencies st !! id = Some e ∧
  (u_role req_user = user →
   patient e = u_id req_user ∨ requestedBy e = u_id req_user) ∧
  (u_role req_user = driver →
   ∃ aid a, e_ambulance e = Some aid ∧ ambulances st !! aid = Some a ∧
            a_driver a = Some (u_id req_user)) ∧
  (u_role req_user = hospital_admin →
   ∃ hid h, e_hospital e = Some hid ∧ hospitals st !! hid = Some h ∧
            u_id req_user ∈ administrators h) ∧
  (∀ s, given (q_status q) = Some s → status_name (e_status e) = s) ∧
  (∀ a b, q_startDate q = Some a → q_endDate q = Some b →
          a ≤ createdAt id ≤ b).
Proof.
  rewrite get_emergencies_run. cbv zeta.
  destruct (window unusual_window _ _) as [w|]; simpl; [|discriminate].
  intros [= <-] Hin. simpl in Hin.
  apply subseteq_take, subseteq_drop, find_sorted_elem in Hin as [Hin Hf].
  simpl in Hin. unfold list_filter in Hf. simpl in Hf.
  apply andb_true_iff in Hf as [Hf Hdate].
  apply andb_true_iff in Hf as [Hrole Hstatus].
  split; [exact Hin|]. unfold role_scope in Hrole.
  split; [|split; [|split; [|split]]].
  - intros Hr. rewrite Hr in Hrole. apply orb_true_iff in Hrole.
    rewrite !bool_decide_eq_true in Hrole. exact Hrole.
  - intros Hr. rewrite Hr in Hrole.
    destruct (e_ambulance e) as [aid|]; [|discriminate].
    destruct (ambulances st !! aid) as [a|] eqn:Ha; [|discriminate].
    apply bool_decide_eq_true in Hrole. by exists aid, a.
  - intros Hr. rewrite Hr in Hrole.
    destruct (e_hospital e) as [hid|]; [|discriminate].
    destruct (hospitals st !! hid) as [h|] eqn:Hh; [|discriminate].
    apply bool_decide_eq_true in Hrole. by exists hid, h.
  - intros s Hs. rewrite Hs in Hstatus.
    by apply bool_decide_eq_true in Hstatus.
  - intros a b Ha Hb. rewrite Ha, Hb in Hdate.
    apply andb_true_iff in Hdate as [Hd1 Hd2].
    apply bool_decide_eq_true in Hd1, Hd2. lia.
Qed.

Lemma emergency_list_scope_witness :
  let st := scenario_assigned in
  let e := emergency_at "e1" st in
  let q := mkListQuery None None None None None in
  emergencies st !! "e1" = Some e ∧
  (patient e = u_id patient_u ∨ requestedBy e = u_id patient_u).
Proof.
  intros st e q.
  destruct (emergency_list_scope (λ _, 0) (λ _ _, None) patient_u q st
              (mkListResponse 1 1 1 [("e1", e)]) "e1" e)
    as (Hin & Huser & _).
  { vm_compute. reflexivity. }
  { simpl. apply list_elem_of_singleton. reflexivity. }
  split; [exact Hin|]. apply Huser. reflexivity.
Defined.

(** X17.  A page of the listing.  The request never changes the store,
    and whatever it returns has no emergency twice, the newest first, and
    [count] entries, at most [total].  For a page number of at least 1 and
    a limit of at least 1 (missing values count as 1 and 10), with
    [(page - 1) * limit] and the limit within the safe integers, the
    request succeeds, the page holds at most [limit] entries, and the
    first page holds every emergency in scope when these are at most
    [limit]. *)
Theorem emergency_list_page createdAt unusual_window req_user q st :
  let res := get_emergencies createdAt unusual_window req_user q st in
  let page := parsed_or (q_page q) 1 in
  let limit := parsed_or (q_limit q) 10 in
  res.1 = st ∧
  (∀ r, res.2 = Sent r →
     lr_count r = length (lr_data r) ∧
     (lr_count r ≤ lr_total r)%nat ∧
     lr_currentPage r = page ∧
     NoDup (lr_data r) ∧
     StronglySorted (λ x y : oid * Emergency, createdAt y.1 ≤ createdAt x.1)
       (lr_data r)) ∧
  (1 ≤ page → 1 ≤ limit ≤ MAX_SAFE_INTEGER →
   (page - 1) * limit ≤ MAX_SAFE_INTEGER →
   ∃ r, res.2 = Sent r ∧
     Z.of_nat (lr_count r) ≤ limit ∧
     (page = 1 → Z.of_nat (lr_total r) ≤ limit →
      ∀ id e, emergencies st !! id = Some e →
              list_filter createdAt req_user q st (id, e) = true →
              (id, e) ∈ lr_data r)).
Proof.
  intros res page limit. unfold res. rewrite get_emergencies_run. cbv zeta.
  fold page limit.
  pose proof (find_sorted_NoDup createdAt req_user q st) as Hnd.
  pose proof (find_sorted_sorted createdAt req_user q st) as Hss.
  set (docs := find_sorted createdAt req_user q st) in *.
  split; [by destruct (window unusual_window _ _)|]. split.
  - destruct (window unusual_window _ _) as [[skip n]|]; simpl; [|discriminate].
    intros r [= <-]. simpl.
    rewrite <- (take_drop skip docs) in Hnd, Hss.
    apply NoDup_app in Hnd as (_ & _ & Hnd).
    apply StronglySorted_app_1_r in Hss.
    rewrite <- (take_drop n (drop skip docs)) in Hnd, Hss.
    apply NoDup_app in Hnd as (Hnd & _ & _).
    apply StronglySorted_app_1_l in Hss.
    split; [reflexivity|].
    split; [rewrite length_take, length_drop; lia|].
    split; [reflexivity|]. split; [exact Hnd|exact Hss].
  - intros Hpage Hlimit Hskip. unfold window.
    rewrite (bool_decide_eq_true_2 (0 ≤ (page - 1) * limit ≤ MAX_SAFE_INTEGER))
      by nia.
    rewrite (bool_decide_eq_true_2 (1 ≤ limit ≤ MAX_SAFE_INTEGER)) by done.
    simpl. eexists. split; [reflexivity|]. simpl.
    split; [rewrite length_take; lia|].
    intros Hp Hle id e Hin Hf.
    replace (Z.to_nat ((page - 1) * limit)) with 0%nat by (rewrite Hp; lia).
    rewrite drop_0, take_ge by lia.
    apply find_sorted_elem. split; assumption.
Qed.

Lemma emergency_list_page_witness :
  let st := scenario_assigned in
  let q := mkListQuery None None None (Some 1) (Some 5) in
  let res := get_emergencies (λ _, 0) (λ _ _, None) patient_u q st in
  res.1 = st ∧
  ∃ r, res.2 = Sent r ∧ Z.of_nat (lr_count r) ≤ 5 ∧
       ("e1", emergency_at "e1" st) ∈ lr_data r.
Proof.
  intros st q res.
  destruct (emergency_list_page (λ _, 0) (λ _ _, None) patient_u q st)
    as (Hst & _ & Hpage).
  split; [exact Hst|].
  destruct Hpage as (r & Hr & Hle & Hall).
  { vm_compute. discriminate. }
  { vm_compute. split; discriminate. }
  { vm_compute. discriminate. }
  exists r. split; [exact Hr|]. split; [exact Hle|].
  apply Hall.
  - reflexivity.
  - unfold res in Hr. vm_compute in Hr. injection Hr as <-.
    vm_compute. discriminate.
  - vm_compute. reflexivity.
  - vm_compute. reflexivity.
Defined.
